(** * AsiaServisPortal: positional table extraction and report aggregation

    A shallow embedding of [app/parser.py] and of the two report entry
    points of [app/main.py], together with the properties of the
    extraction and aggregation pipeline.

    Conventions of the embedding.
    - A Python [str] is a list of code points ([str := list N]).
    - Coordinates coming from the layout extractor are rationals ([Q]);
      the finite floats of the source are compared exactly.
    - The patterns of the source are values of a small [regex] type that is
      run by a backtracking matcher with the greedy, leftmost semantics of
      Python's [re]; [\d] is the class of the ASCII digits.
    - A Python exception is the [None] of an [option]. *)

From Stdlib Require Import QArith Qabs Ascii Lqa.
From stdpp Require Import gmap list strings sorting.

Local Open Scope N_scope.

(** ** Strings *)

Definition str := list N.

Definition chr (a : ascii) : N := N_of_ascii a.

(** [lit s] is the [str] of an ASCII literal. *)
Definition lit (s : string) : str := chr <$> String.list_ascii_of_string s.

(** ** Character classes *)

Definition in_range (lo hi c : N) : bool := (lo <=? c) && (c <=? hi).

(** [\d] and [[0-9]] *)
Definition is_digit (c : N) : bool := in_range 48 57 c.
(** [[A-Z]] *)
Definition is_upper (c : N) : bool := in_range 65 90 c.
(** [[A-Z0-9]], [[0-9A-Z]] *)
Definition is_upper_digit (c : N) : bool := is_upper c || is_digit c.
(** [[\d,]] *)
Definition is_digit_comma (c : N) : bool := is_digit c || (c =? 44).
(** [.] : anything but a line feed *)
Definition is_dot (c : N) : bool := negb (c =? 10).
(** a single literal character *)
Definition is_char (a c : N) : bool := c =? a.
(** [[ \t]] *)
Definition is_blank (c : N) : bool := (c =? 32) || (c =? 9).

(** [\s] and the characters removed by [str.strip]: Python's Unicode
    whitespace. *)
Definition is_space (c : N) : bool :=
  in_range 9 13 c || in_range 28 32 c || (c =? 133) || (c =? 160)
  || (c =? 5760) || in_range 8192 8202 c || (c =? 8232) || (c =? 8233)
  || (c =? 8239) || (c =? 8287) || (c =? 12288).

(** ** Regular expressions of the source *)

Inductive regex : Type :=
| Lit (t : str)                                   (* a literal string *)
| Rep (p : N → bool) (lo : nat) (hi : option nat) (* p{lo,hi}, p*, p+ *)
| Cat (r1 r2 : regex)
| Group (r : regex).                              (* ( r ) *)

Definition one (p : N → bool) : regex := Rep p 1 (Some 1%nat).
Definition times (n : nat) (p : N → bool) : regex := Rep p n (Some n).
Definition star (p : N → bool) : regex := Rep p 0 None.
Definition plus (p : N → bool) : regex := Rep p 1 None.
Definition opt (p : N → bool) : regex := Rep p 0 (Some 1%nat).

Fixpoint cat (rs : list regex) : regex :=
  match rs with
  | [] => Lit []
  | [r] => r
  | r :: rs' => Cat r (cat rs')
  end.

Fixpoint strip_prefix (t s : str) : option str :=
  match t, s with
  | [], _ => Some s
  | a :: t', c :: s' => if a =? c then strip_prefix t' s' else None
  | _ :: _, [] => None
  end.

(** exactly [n] characters of class [p] *)
Fixpoint exactly (p : N → bool) (n : nat) (s : str) : option str :=
  match n, s with
  | O, _ => Some s
  | S n', c :: s' => if p c then exactly p n' s' else None
  | S _, [] => None
  end.

(** at most [n] characters of class [p], the longest run first, giving
    characters back one at a time while the continuation fails *)
Fixpoint greedy {R} (p : N → bool) (n : nat) (s : str)
    (k : str → option R) : option R :=
  match n, s with
  | S n', c :: s' =>
      if p c then
        match greedy p n' s' k with
        | Some v => Some v
        | None => k s
        end
      else k s
  | _, _ => k s
  end.

(** [run r s caps k] matches [r] at the start of [s]; [k] receives the
    rest of the input and the groups closed so far. *)
Fixpoint run {R} (r : regex) (s : str) (caps : list str)
    (k : str → list str → option R) : option R :=
  match r with
  | Lit t =>
      match strip_prefix t s with
      | Some s' => k s' caps
      | None => None
      end
  | Rep p lo hi =>
      match exactly p lo s with
      | Some s' =>
          greedy p (match hi with
                    | Some h => h - lo
                    | None => length s'
                    end)%nat s' (λ s'', k s'' caps)
      | None => None
      end
  | Cat r1 r2 => run r1 s caps (λ s' caps', run r2 s' caps' k)
  | Group r =>
      run r s caps
        (λ s' caps', k s' (caps' ++ [take (length s - length s')%nat s]))
  end.

(** [re.fullmatch(r, s)] as a truth value *)
Definition fullmatch (r : regex) (s : str) : bool :=
  match run r s [] (λ s' _, match s' with [] => Some () | _ => None end) with
  | Some _ => true
  | None => false
  end.

(** [re.search(r, s)]: the groups of the leftmost match *)
Fixpoint search (r : regex) (s : str) : option (list str) :=
  match run r s [] (λ _ caps, Some caps) with
  | Some caps => Some caps
  | None =>
      match s with
      | [] => None
      | _ :: s' => search r s'
      end
  end.

(** [m.group(i)] for [i >= 1] *)
Definition group (caps : list str) (i : nat) : str :=
  default [] (caps !! pred i).

(** ** String methods *)

Fixpoint lstrip (s : str) : str :=
  match s with
  | c :: s' => if is_space c then lstrip s' else s
  | [] => []
  end.

(** [s.strip()] *)
Definition strip (s : str) : str := reverse (lstrip (reverse (lstrip s))).

(** [s.replace(a, b)] for single characters *)
Definition replace1 (a : N) (b : str) (s : str) : str :=
  flat_map (λ c, if c =? a then b else [c]) s.

(** [sep.join(parts)] *)
Fixpoint join (sep : str) (parts : list str) : str :=
  match parts with
  | [] => []
  | [p] => p
  | p :: ps => p ++ sep ++ join sep ps
  end.

(** [re.sub(r"[ \t]+", " ", t)] *)
Fixpoint collapse_blanks (s : str) : str :=
  match s with
  | [] => []
  | c :: s' =>
      if is_blank c then
        match s' with
        | d :: _ => if is_blank d then collapse_blanks s'
                    else 32 :: collapse_blanks s'
        | [] => [32]
        end
      else c :: collapse_blanks s'
  end.

(** ** Stable sorting: [sorted(l, key=...)] *)

Section Sorted.
Context {A K : Type} (key : A → K) (le : K → K → bool).

Fixpoint insert_by (x : A) (l : list A) : list A :=
  match l with
  | [] => [x]
  | y :: l' => if le (key x) (key y) then x :: l else y :: insert_by x l'
  end.

Definition sorted (l : list A) : list A := foldr insert_by [] l.

End Sorted.

Definition Qlt_bool (a b : Q) : bool := negb (Qle_bool b a).

Definition pair_le (a b : Q * Q) : bool :=
  Qlt_bool a.1 b.1 || (Qeq_bool a.1 b.1 && Qle_bool a.2 b.2).

(** ** [app/parser.py] *)

(** A word of [page.extract_words()]: the dictionary keys the parser
    reads. *)
Record Word := { text : str; x0 : Q; top : Q }.

(** What the parser uses of a [pdfplumber] page. [extract_text] may
    return [None]. *)
Record Page := { extract_words : list Word; extract_text : option str }.

(** A row dictionary of [_parse_rows_by_columns]. *)
Record Row := {
  pay_no : str;
  iin_bin : str;
  bank_code : str;
  iik : str;
  kbk : str;
  amount_in : str
}.

#[global] Instance Row_eq_dec : EqDecision Row.
Proof. solve_decision. Defined.

(** The patterns of [_parse_rows_by_columns], in order of appearance. *)
Definition RE_IIN : regex := times 12 is_digit.
Definition RE_BANK_BASE : regex := Rep is_upper_digit 7 (Some 8%nat).
Definition RE_IIK_PREFIX : regex := Cat (Lit (lit "KZ")) (times 5 is_upper_digit).
Definition RE_KBK : regex := times 6 is_digit.
Definition RE_AMOUNT : regex :=
  cat [one is_digit; star is_digit_comma; Lit (lit "."); times 2 is_digit].
Definition RE_PAY_NO : regex := Cat (plus is_digit) (opt (is_char 42)).
Definition RE_SUFFIX : regex := one is_upper.
Definition RE_IIK_CONT : regex := plus is_upper_digit.

(** [lo <= w["x0"] <= hi] *)
Definition x0_between (lo hi : Q) (w : Word) : bool :=
  Qle_bool lo (x0 w) && Qle_bool (x0 w) hi.

(** The four column tests of the main line, as the source writes them. *)
Definition is_bank_base (w : Word) : bool :=
  x0_between 320 385 w && fullmatch RE_BANK_BASE (text w).
Definition is_iik_prefix (w : Word) : bool :=
  x0_between 385 470 w && fullmatch RE_IIK_PREFIX (text w).
Definition is_kbk (w : Word) : bool :=
  x0_between 420 500 w && fullmatch RE_KBK (text w).
Definition is_amount (w : Word) : bool :=
  Qle_bool 505 (x0 w) && fullmatch RE_AMOUNT (text w).

(** The two tests of the continuation lines. *)
Definition is_bank_suffix (w : Word) : bool :=
  x0_between 320 385 w && fullmatch RE_SUFFIX (text w).
Definition is_iik_cont (w : Word) : bool :=
  x0_between 385 470 w && fullmatch RE_IIK_CONT (text w).

(** The local variables assigned by the loop over the main line. *)
Record Cols := {
  bank_base : str;
  iik_prefix : str;
  col_kbk : str;
  col_amount : str
}.

Definition no_cols : Cols :=
  {| bank_base := []; iik_prefix := []; col_kbk := []; col_amount := [] |}.

(** One iteration of [for w in line]: four independent [if]s, each
    overwriting its variable. *)
Definition classify (c : Cols) (w : Word) : Cols :=
  {| bank_base := if is_bank_base w then text w else bank_base c;
     iik_prefix := if is_iik_prefix w then text w else iik_prefix c;
     col_kbk := if is_kbk w then text w else col_kbk c;
     col_amount := if is_amount w then text w else col_amount c |}.

(** [abs(w["top"] - top) < 2.5] *)
Definition in_line (tp : Q) (w : Word) : bool :=
  Qlt_bool (Qabs (top w - tp)) (5 # 2).

(** [top < w["top"] < next_top] *)
Definition in_between (tp next_top : Q) (w : Word) : bool :=
  Qlt_bool tp (top w) && Qlt_bool (top w) next_top.

(** The sort key [(w["top"], w["x0"])]. *)
Definition reading_order (w : Word) : Q * Q := (top w, x0 w).

(** [line]: the words within 2.5 of the anchor, by [x0]. *)
Definition main_line (words : list Word) (tp : Q) : list Word :=
  sorted x0 Qle_bool (List.filter (in_line tp) words).

(** [between]: the words strictly between the anchor and the next one,
    by [(top, x0)]. *)
Definition between (words : list Word) (tp next_top : Q) : list Word :=
  sorted reading_order pair_le (List.filter (in_between tp next_top) words).

(** The first matching word's text, or the empty string: a [for] loop
    that assigns and [break]s. *)
Definition first_text (p : Word → bool) (l : list Word) : str :=
  match List.find p l with
  | Some w => text w
  | None => []
  end.

(** [bank_code]: the base, extended by the suffix when the base has 7
    characters. *)
Definition merge_bank (base suffix : str) : str :=
  if negb (bool_decide (base = [])) && (length base =? 7)%nat
     && negb (bool_decide (suffix = []))
  then base ++ suffix else base.

(** [iik]: prefix and continuation parts, cut at 20 characters. *)
Definition merge_iik (prefix : str) (cont_parts : list str) : str :=
  let iik := prefix ++ concat cont_parts in
  if (20 <? length iik)%nat then take 20 iik else iik.

(** The body of [for idx, iw in enumerate(iin_words)]. *)
Definition build_row (words : list Word) (iw : Word) (next_top : Q) : Row :=
  let line := main_line words (top iw) in
  let c := fold_left classify line no_cols in
  let btw := between words (top iw) next_top in
  let suffix := first_text is_bank_suffix btw in
  let cont_parts := text <$> List.filter is_iik_cont btw in
  {| pay_no := first_text (λ w, fullmatch RE_PAY_NO (text w)) line;
     iin_bin := text iw;
     bank_code := merge_bank (bank_base c) suffix;
     iik := merge_iik (iik_prefix c) cont_parts;
     kbk := col_kbk c;
     amount_in := col_amount c |}.

(** [10**9]: the bound that closes the last anchor's continuation. *)
Definition NO_NEXT : Q := 1000000000.

(** The loop over the anchors; [next_top] is the [top] of the following
    anchor. *)
Fixpoint build_rows (words iin_words : list Word) : list Row :=
  match iin_words with
  | [] => []
  | iw :: rest =>
      build_row words iw
        (match rest with
         | nxt :: _ => top nxt
         | [] => NO_NEXT
         end)
      :: build_rows words rest
  end.

Definition RowKey : Type := str * str * str * str * str * str.

Definition row_key (r : Row) : RowKey :=
  (pay_no r, iin_bin r, bank_code r, iik r, kbk r, amount_in r).

(** The deduplication loop: [seen] is the set, [uniq] the list built so
    far. *)
Fixpoint dedup_rows (rows : list Row) (seen : gset RowKey) (uniq : list Row)
    : list Row :=
  match rows with
  | [] => uniq
  | r :: rows' =>
      if decide (row_key r ∈ seen) then dedup_rows rows' seen uniq
      else dedup_rows rows' ({[row_key r]} ∪ seen) (uniq ++ [r])
  end.

Definition iin_words_of (words : list Word) : list Word :=
  sorted top Qle_bool (List.filter (λ w, fullmatch RE_IIN (text w)) words).

Definition _parse_rows_by_columns (page : Page) : list Row :=
  let words := extract_words page in
  dedup_rows (build_rows words (iin_words_of words)) ∅ [].

(** *** Document metadata *)

(** The labels, as code points: "Регион:", "Отчет произведен:" and
    "Период:" in Cyrillic. *)
Definition LABEL_REGION : str := [1056; 1077; 1075; 1080; 1086; 1085; 58].
Definition LABEL_REPORT_DATE : str :=
  [1054; 1090; 1095; 1077; 1090; 32; 1087; 1088; 1086; 1080; 1079; 1074;
   1077; 1076; 1077; 1085; 58].
Definition LABEL_PERIOD : str := [1055; 1077; 1088; 1080; 1086; 1076; 58].

(** [[0-9]{2}\.[0-9]{2}\.[0-9]{4}] *)
Definition DATE : list regex :=
  [times 2 is_digit; Lit (lit "."); times 2 is_digit; Lit (lit ".");
   times 4 is_digit].

(** [[0-9]{2}:[0-9]{2}:[0-9]{2}] *)
Definition TIME : list regex :=
  [times 2 is_digit; Lit (lit ":"); times 2 is_digit; Lit (lit ":");
   times 2 is_digit].

Definition RE_REGION : regex :=
  cat [Lit LABEL_REGION; star is_space; Group (plus is_dot)].

Definition RE_REPORT_DATE : regex :=
  cat [Lit LABEL_REPORT_DATE; star is_space;
       Group (cat (DATE ++ [plus is_space] ++ TIME))].

Definition RE_PERIOD : regex :=
  cat [Lit LABEL_PERIOD; star is_space;
       Group (cat (DATE ++ [star is_space; Lit (lit "-"); star is_space]
                   ++ DATE))].

Definition _clean_text (t : str) : str :=
  strip (collapse_blanks (replace1 160 [32] t)).

Record Meta := { meta_region : str; meta_report_date : str; meta_period : str }.

(** [m.group(1).strip()] when the pattern is found, the initial [""]
    otherwise. *)
Definition meta_field (r : regex) (full_text : str) : str :=
  match search r full_text with
  | Some caps => strip (group caps 1)
  | None => []
  end.

Definition _extract_meta (full_text : str) : Meta :=
  {| meta_region := meta_field RE_REGION full_text;
     meta_report_date := meta_field RE_REPORT_DATE full_text;
     meta_period := meta_field RE_PERIOD full_text |}.

(** The dictionary returned by [parse_report_pdf]. *)
Record Document := {
  region : str;
  report_date : str;
  period : str;
  rows : list Row
}.

(** [parse_report_pdf], on the pages of the opened file: the rows of the
    pages one after the other, the metadata from the joined text. *)
Definition parse_report_pdf (pages : list Page) : Document :=
  let pages_text := (λ p, default [] (extract_text p)) <$> pages in
  let all_rows := concat (_parse_rows_by_columns <$> pages) in
  let full_text := _clean_text (join [10] pages_text) in
  let meta := _extract_meta full_text in
  {| region := meta_region meta;
     report_date := meta_report_date meta;
     period := meta_period meta;
     rows := all_rows |}.

(** ** [app/main.py] *)

(** *** Dates *)

(** A naive [datetime]; values are ordered field by field. *)
Record datetime := {
  year : N; month : N; day : N;
  hour : N; minute : N; second : N; microsecond : N
}.

#[global] Instance datetime_eq_dec : EqDecision datetime.
Proof. solve_decision. Defined.

(** Lexicographic order: how Python compares tuples, strings and
    [datetime] values. *)
Fixpoint lex_le (a b : list N) : bool :=
  match a, b with
  | [], _ => true
  | _ :: _, [] => false
  | x :: a', y :: b' =>
      if x <? y then true else if y <? x then false else lex_le a' b'
  end.

Definition dt_fields (d : datetime) : list N :=
  [year d; month d; day d; hour d; minute d; second d; microsecond d].

Definition dt_le (a b : datetime) : bool := lex_le (dt_fields a) (dt_fields b).

(** [datetime.max] *)
Definition datetime_max : datetime :=
  {| year := 9999; month := 12; day := 31;
     hour := 23; minute := 59; second := 59; microsecond := 999999 |}.

Definition is_leap (y : N) : bool :=
  ((y mod 4 =? 0) && negb (y mod 100 =? 0)) || (y mod 400 =? 0).

Definition days_in_month (y m : N) : N :=
  if m =? 2 then (if is_leap y then 29 else 28)
  else if (m =? 4) || (m =? 6) || (m =? 9) || (m =? 11) then 30
  else 31.

(** The number written by a string of decimal digits. *)
Definition int_of_digits (s : str) : N :=
  fold_left (λ acc c, 10 * acc + (c - 48)) s 0.

(** [datetime.strptime(s, "%d.%m.%Y")] on a string of the shape
    [dd.mm.yyyy], the only shape [_period_start] passes: [ValueError]
    unless the day, month and year name a date of the calendar. *)
Definition strptime_dmy (s : str) : option datetime :=
  if fullmatch (cat DATE) s then
    let d := int_of_digits (take 2 s) in
    let m := int_of_digits (take 2 (drop 3 s)) in
    let y := int_of_digits (take 4 (drop 6 s)) in
    if (1 <=? y) && (1 <=? m) && (m <=? 12) && (1 <=? d)
       && (d <=? days_in_month y m)
    then Some {| year := y; month := m; day := d;
                 hour := 0; minute := 0; second := 0; microsecond := 0 |}
    else None
  else None.

(** [RE_PERIOD_RANGE]; the groups [s] and [e] are groups 1 and 2. *)
Definition RE_PERIOD_RANGE : regex :=
  cat [Group (cat DATE); star is_space; Lit (lit "-"); star is_space;
       Group (cat DATE)].

Definition _period_start (period : str) : option datetime :=
  match search RE_PERIOD_RANGE period with
  | None => Some datetime_max
  | Some m => strptime_dmy (group m 1)
  end.

(** Zero-padded decimal of width [w]: [%02d], [%04d], [%06d]. *)
Fixpoint pad (w : nat) (n : N) : str :=
  match w with
  | O => []
  | S w' => pad w' (n / 10) ++ [48 + n mod 10]
  end.

(** [d.isoformat()] *)
Definition isoformat (d : datetime) : str :=
  pad 4 (year d) ++ lit "-" ++ pad 2 (month d) ++ lit "-" ++ pad 2 (day d)
  ++ lit "T" ++ pad 2 (hour d) ++ lit ":" ++ pad 2 (minute d) ++ lit ":"
  ++ pad 2 (second d)
  ++ (if microsecond d =? 0 then [] else lit "." ++ pad 6 (microsecond d)).

(** *** Numbers *)

(** The value of a Python [float], before rounding to binary64. *)
Inductive pyfloat : Type :=
| Finite (q : Q)
| Infinite (negative : bool)
| NaN.

(** The whitespace [float] strips: the ASCII blanks 9-13 and 32, and the
    Unicode whitespace above the ASCII range. *)
Definition is_float_space (c : N) : bool :=
  in_range 9 13 c || (c =? 32) || ((127 <=? c) && is_space c).

Fixpoint lstrip_by (p : N → bool) (s : str) : str :=
  match s with
  | c :: s' => if p c then lstrip_by p s' else s
  | [] => []
  end.

(** the digits after the first one of a [digitpart]:
    [(["_"] digit)*] *)
Fixpoint digitpart_tail (s : str) : list N * str :=
  match s with
  | [] => ([], [])
  | c :: s' =>
      if is_digit c then
        let '(ds, r) := digitpart_tail s' in (c :: ds, r)
      else if c =? 95 then
        match s' with
        | d :: s'' =>
            if is_digit d then
              let '(ds, r) := digitpart_tail s'' in (d :: ds, r)
            else ([], s)
        | [] => ([], s)
        end
      else ([], s)
  end.

(** [digitpart ::= digit (["_"] digit)*] *)
Definition digitpart (s : str) : option (list N * str) :=
  match s with
  | c :: s' =>
      if is_digit c then
        let '(ds, r) := digitpart_tail s' in Some (c :: ds, r)
      else None
  | [] => None
  end.

(** [number ::= [digitpart] "." digitpart | digitpart ["."]]: the digits
    before and after the point, and the rest. *)
Definition number (s : str) : option (list N * list N * str) :=
  match digitpart s with
  | Some (ip, r) =>
      match r with
      | c :: r' =>
          if c =? 46 then
            match digitpart r' with
            | Some (fp, r'') => Some (ip, fp, r'')
            | None => Some (ip, [], r')
            end
          else Some (ip, [], r)
      | [] => Some (ip, [], r)
      end
  | None =>
      match s with
      | c :: r' =>
          if c =? 46 then
            match digitpart r' with
            | Some (fp, r'') => Some ([], fp, r'')
            | None => None
            end
          else None
      | [] => None
      end
  end.

(** an optional [+] or [-]: whether it is [-], and the rest *)
Definition sign (s : str) : bool * str :=
  match s with
  | c :: s' =>
      if c =? 43 then (false, s')
      else if c =? 45 then (true, s')
      else (false, s)
  | [] => (false, s)
  end.

(** [exponent ::= ("e" | "E") [sign] digitpart], as a power of ten *)
Definition exponent (s : str) : option (Z * str) :=
  match s with
  | c :: s' =>
      if (c =? 101) || (c =? 69) then
        let '(neg, s'') := sign s' in
        match digitpart s'' with
        | Some (ds, r) =>
            let e := Z.of_N (int_of_digits ds) in
            Some (if neg then (- e)%Z else e, r)
        | None => None
        end
      else None
  | [] => None
  end.

Definition lower (c : N) : N := if is_upper c then c + 32 else c.

Definition pow10 (e : Z) : Q :=
  if (0 <=? e)%Z then inject_Z (10 ^ e) else Qinv (inject_Z (10 ^ (- e))).

(** [float(s)]: [None] is [ValueError]. *)
Definition py_float (s : str) : option pyfloat :=
  let body := reverse (lstrip_by is_float_space
                (reverse (lstrip_by is_float_space s))) in
  let '(neg, abs) := sign body in
  let name := lower <$> abs in
  if bool_decide (name = lit "inf") || bool_decide (name = lit "infinity")
  then Some (Infinite neg)
  else if bool_decide (name = lit "nan") then Some NaN
  else
    match number abs with
    | Some (ip, fp, r) =>
        let mant := inject_Z (Z.of_N (int_of_digits (ip ++ fp))) in
        let frac := Z.of_nat (length fp) in
        let finish (e : Z) :=
          let q := (mant * pow10 (e - frac))%Q in
          Some (Finite (if neg then (- q)%Q else q)) in
        match r with
        | [] => finish 0%Z
        | _ =>
            match exponent r with
            | Some (e, []) => finish e
            | _ => None
            end
        end
    | None => None
    end.

(** *** The report pages *)

(** An entry of [list_uploads()]; the report pages read only its
    [path]. *)
Record Upload := { path : str }.

(** An entry of [parsed_files] in [page_report]. *)
Record ParsedFile := {
  pf_period : str;
  pf_period_start : datetime;
  pf_region : str;
  pf_report_date : str;
  pf_rows : list Row
}.

(** A dictionary of [table_rows]: [{"type": "period", ...}] or
    [{"type": "data", ...}]. *)
Inductive TableRow : Type :=
| PeriodRow (p : str)
| DataRow (iin bank acc budget amount : str).

Definition ReportKey : Type :=
  str * str * str * str * str * str * str * str * str.

Definition report_key (pf : ParsedFile) (r : Row) : ReportKey :=
  (pf_period pf, pf_region pf, pf_report_date pf,
   pay_no r, iin_bin r, bank_code r, iik r, kbk r, amount_in r).

Definition data_row (r : Row) : TableRow :=
  DataRow (iin_bin r) (bank_code r) (iik r) (kbk r) (amount_in r).

(** [for r in pf["rows"]], on the state [(table_rows, seen)] *)
Fixpoint emit_rows (pf : ParsedFile) (rs : list Row)
    (st : list TableRow * gset ReportKey) : list TableRow * gset ReportKey :=
  match rs with
  | [] => st
  | r :: rs' =>
      if decide (report_key pf r ∈ st.2) then emit_rows pf rs' st
      else emit_rows pf rs' (st.1 ++ [data_row r], {[report_key pf r]} ∪ st.2)
  end.

(** [for pf in parsed_files] *)
Fixpoint emit_files (pfs : list ParsedFile)
    (st : list TableRow * gset ReportKey) : list TableRow * gset ReportKey :=
  match pfs with
  | [] => st
  | pf :: pfs' =>
      emit_files pfs'
        (emit_rows pf (pf_rows pf) (st.1 ++ [PeriodRow (pf_period pf)], st.2))
  end.

(** A row of [cleaned_rows] in [api_report_data]. *)
Record CleanedRow := {
  c_iin_bin : str;
  c_bank_code : str;
  c_iik : str;
  c_kbk : str;
  c_amount_in : str;
  amount_numeric : pyfloat
}.

(** An entry of [parsed_files] in [api_report_data]: [period_start] is a
    string there. *)
Record DataFile := {
  df_period : str;
  df_period_start : str;
  df_region : str;
  df_report_date : str;
  df_rows : list CleanedRow
}.

(** The dictionary returned by [api_report_data]; the three [list(set(...))]
    are kept as sets. *)
Record ReportData := {
  files : list DataFile;
  total_files : nat;
  available_regions : gset str;
  available_periods : gset str;
  available_kbks : gset str
}.

(** [float(a.replace(",", "")) if a else 0.0] *)
Definition to_numeric (a : str) : option pyfloat :=
  match a with
  | [] => Some (Finite 0)
  | _ => py_float (replace1 44 [] a)
  end.

Definition clean_row (r : Row) : option CleanedRow :=
  n ← to_numeric (amount_in r);
  Some {| c_iin_bin := iin_bin r; c_bank_code := bank_code r;
          c_iik := iik r; c_kbk := kbk r; c_amount_in := amount_in r;
          amount_numeric := n |}.

(** [_period_start(period).isoformat() if period else ""] *)
Definition period_start_key (p : str) : option str :=
  match p with
  | [] => Some []
  | _ => isoformat <$> _period_start p
  end.

Definition nonempty (s : list str) : gset str :=
  list_to_set (List.filter (λ x, negb (bool_decide (x = []))) s).

Section Reports.

(** [storage.file_exists] and the pages [pdfplumber] finds in a file. *)
Variable file_exists : str → bool.
Variable pdf_pages : str → list Page.

(** The first loop of [page_report]. *)
Fixpoint report_files (fs : list Upload) : option (list ParsedFile) :=
  match fs with
  | [] => Some []
  | f :: fs' =>
      if negb (file_exists (path f)) then report_files fs'
      else
        let parsed := parse_report_pdf (pdf_pages (path f)) in
        let p := strip (period parsed) in
        start ← _period_start p;
        rest ← report_files fs';
        Some ({| pf_period := p;
                 pf_period_start := start;
                 pf_region := strip (region parsed);
                 pf_report_date := strip (report_date parsed);
                 pf_rows := rows parsed |} :: rest)
  end.

(** [page_report]: the [rows] and [files_count] handed to the template. *)
Definition page_report (fs : list Upload) : option (list TableRow * nat) :=
  parsed_files ← report_files fs;
  let parsed_files := sorted pf_period_start dt_le parsed_files in
  Some ((emit_files parsed_files ([], ∅)).1, length parsed_files).

(** The loop of [api_report_data]. *)
Fixpoint data_files (fs : list Upload) : option (list DataFile) :=
  match fs with
  | [] => Some []
  | f :: fs' =>
      if negb (file_exists (path f)) then data_files fs'
      else
        let parsed := parse_report_pdf (pdf_pages (path f)) in
        let p := strip (period parsed) in
        cleaned_rows ← mapM clean_row (rows parsed);
        start ← period_start_key p;
        rest ← data_files fs';
        Some ({| df_period := p;
                 df_period_start := start;
                 df_region := strip (region parsed);
                 df_report_date := strip (report_date parsed);
                 df_rows := cleaned_rows |} :: rest)
  end.

Definition api_report_data (fs : list Upload) : option ReportData :=
  parsed_files ← data_files fs;
  let parsed_files := sorted df_period_start lex_le parsed_files in
  Some {| files := parsed_files;
          total_files := length parsed_files;
          available_regions := nonempty (df_region <$> parsed_files);
          available_periods := nonempty (df_period <$> parsed_files);
          available_kbks :=
            nonempty (c_kbk <$> concat (df_rows <$> parsed_files)) |}.

End Reports.

(** ** [app/storage.py] and [app/config.py] *)

Definition MAX_UPLOAD_MB : N := 50.

(** The copy loop of [save_temp_pdf], lines 43 to 59: [chunks] are the
    results of the successive [file.read(1024 * 1024)], the end of the
    list standing for the empty chunk of an exhausted stream; [total] and
    [out] are the byte count and the content written so far. [None] is the
    [HTTPException] 413, raised after the stored file is removed. *)
Fixpoint copy_chunks (chunks : list (list N)) (total : N) (out : list N)
    : option (list N) :=
  match chunks with
  | [] => Some out
  | chunk :: rest =>
      match chunk with
      | [] => Some out
      | _ =>
          let total := total + N.of_nat (length chunk) in
          if MAX_UPLOAD_MB * 1024 * 1024 <? total then None
          else copy_chunks rest total (out ++ chunk)
      end
  end.

(** ** Notions used in the statements *)

(** How many of the four column tests accept a word. *)
Definition accepting (w : Word) : nat :=
  length (List.filter id [is_bank_base w; is_iik_prefix w; is_kbk w;
                          is_amount w]).

(** [t in s] *)
Fixpoint str_in (t s : str) : bool :=
  match strip_prefix t s with
  | Some _ => true
  | None =>
      match s with
      | [] => false
      | _ :: s' => str_in t s'
      end
  end.

(** The text handed to [_extract_meta] by [parse_report_pdf]. *)
Definition full_text_of (pages : list Page) : str :=
  _clean_text (join [10] ((λ p, default [] (extract_text p)) <$> pages)).

(** A period string in which [RE_PERIOD_RANGE] is found. *)
Definition parsable (p : str) : bool :=
  match search RE_PERIOD_RANGE p with
  | Some _ => true
  | None => false
  end.

(** The period headers and the data lines of a report, in order. *)
Definition headers (table : list TableRow) : list str :=
  omap (λ t, match t with PeriodRow p => Some p | _ => None end) table.

Definition data_lines (table : list TableRow) : list TableRow :=
  List.filter (λ t, match t with DataRow _ _ _ _ _ => true | _ => false end)
    table.

(** The data line written for a deduplication key. *)
Definition line_of_key (k : ReportKey) : TableRow :=
  let '(_, _, _, _, i, b, a, c, m) := k in DataRow i b a c m.

(** The keys added to [seen] by the loops of [page_report], in the order
    in which their data lines are appended. *)
Fixpoint keys_of_rows (pf : ParsedFile) (rs : list Row)
    (st : list ReportKey * gset ReportKey) : list ReportKey * gset ReportKey :=
  match rs with
  | [] => st
  | r :: rs' =>
      if decide (report_key pf r ∈ st.2) then keys_of_rows pf rs' st
      else keys_of_rows pf rs'
             (st.1 ++ [report_key pf r], {[report_key pf r]} ∪ st.2)
  end.

Fixpoint keys_of_files (pfs : list ParsedFile)
    (st : list ReportKey * gset ReportKey) : list ReportKey * gset ReportKey :=
  match pfs with
  | [] => st
  | pf :: pfs' => keys_of_files pfs' (keys_of_rows pf (pf_rows pf) st)
  end.

(** The strings of [p{lo,hi}]. *)
Definition matches_rep (p : N → bool) (lo : nat) (hi : option nat) (s : str)
    : Prop :=
  Forall (λ c, p c = true) s ∧ (lo ≤ length s)%nat
  ∧ match hi with
    | Some h => (length s ≤ lo + (h - lo))%nat
    | None => True
    end.

(** The groups closed while a pattern matches a string, in the order in
    which they close. *)
Fixpoint groups (r : regex) (s : str) (cs : list str) : Prop :=
  match r with
  | Lit t => s = t ∧ cs = []
  | Rep p lo hi => matches_rep p lo hi s ∧ cs = []
  | Cat r1 r2 =>
      ∃ a b c1 c2, s = a ++ b ∧ groups r1 a c1 ∧ groups r2 b c2
                   ∧ cs = c1 ++ c2
  | Group r' => ∃ c, groups r' s c ∧ cs = c ++ [s]
  end.

(** A text that neither begins nor ends with whitespace. *)
Definition stripped (s : str) : Prop :=
  match s with c :: _ => is_space c = false | [] => True end
  ∧ match reverse s with c :: _ => is_space c = false | [] => True end.

(** A pattern without group. *)
Fixpoint plain (r : regex) : bool :=
  match r with
  | Lit _ | Rep _ _ _ => true
  | Cat r1 r2 => plain r1 && plain r2
  | Group _ => false
  end.

(** [DD.MM.YYYY - DD.MM.YYYY], the group of [RE_PERIOD]. *)
Definition PERIOD_TEXT : regex :=
  cat (DATE ++ [star is_space; Lit (lit "-"); star is_space] ++ DATE).

(** [file_exists(f["path"])], the test of the two report pages. *)
Definition available (file_exists : str → bool) (f : Upload) : bool :=
  file_exists (path f).

(** The lines written for one file: its header, then data lines. *)
Definition block (p : str) (rs : list Row) : list TableRow :=
  PeriodRow p :: (data_row <$> rs).

(** What the stream of an upload holds: the chunks read before the
    first empty one. *)
Fixpoint stream_content (chunks : list (list N)) : list N :=
  match chunks with
  | [] => []
  | [] :: _ => []
  | chunk :: rest => chunk ++ stream_content rest
  end.

(** The number of hundredths an amount string writes: its digits, the
    commas and the point left out, read as one decimal number. *)
Definition cents (a : str) : N := int_of_digits (List.filter is_digit a).

(** The number an amount string denotes: hundredths for a written amount,
    zero for the empty string. *)
Definition amount_value (a : str) : pyfloat :=
  match a with
  | [] => Finite 0
  | _ => Finite (Z.of_N (cents a) # 100)
  end.

(** The start of the continuation of an anchor followed by [after]. *)
Definition next_top_of (after : list Word) : Q :=
  match after with
  | nxt :: _ => top nxt
  | [] => NO_NEXT
  end.

(** ** Sample inputs *)

Definition word (t : string) (x y : Q) : Word :=
  {| text := lit t; x0 := x; top := y |}.

(** A page with a single anchor. *)
Definition one_row_page : Page :=
  {| extract_words := [word "123456789012" 100 50]; extract_text := None |}.

(** A word on the bound shared by the bank and account columns. *)
Definition boundary_word : Word := word "KZ12345" 385 50.

(** A page with two anchors of different identifiers, the lower one
    first in the word list. *)
Definition two_row_page : Page :=
  {| extract_words := [word "210987654321" 100 80; word "123456789012" 100 50];
     extract_text := None |}.


(** An anchor followed by a continuation fragment in the account column. *)
Definition anchor_word : Word := word "123456789012" 100 50.
Definition kz_fragment_words : list Word := [anchor_word; word "KZ99" 400 60].

(** A page without anchor and without metadata label. *)
Definition plain_page : Page :=
  {| extract_words := [word "TOTAL" 100 50; word "1,000.00" 528 50];
     extract_text := Some (lit "TOTAL 1,000.00") |}.

(** Three stored reports and a vanished file: February, a file that is
    gone, January and a report without period. *)
Definition jan : str := lit "01.01.2023 - 31.01.2023".
Definition feb : str := lit "01.02.2023 - 28.02.2023".

Definition period_page (p : str) : Page :=
  {| extract_words := [];
     extract_text :=
       Some (LABEL_REGION ++ lit " Almaty" ++ [10] ++ LABEL_PERIOD
             ++ lit " " ++ p) |}.

Definition sample_files : list Upload :=
  [{| path := lit "feb.pdf" |}; {| path := lit "gone.pdf" |};
   {| path := lit "jan.pdf" |}; {| path := lit "plain.pdf" |}].

Definition sample_exists (p : str) : bool :=
  negb (bool_decide (p = lit "gone.pdf")).

Definition sample_pages (p : str) : list Page :=
  if bool_decide (p = lit "feb.pdf") then [period_page feb]
  else if bool_decide (p = lit "jan.pdf") then [period_page jan]
  else [plain_page].

Definition sample_report : option (list TableRow * nat) :=
  page_report sample_exists sample_pages sample_files.

Definition sample_data : option ReportData :=
  api_report_data sample_exists sample_pages sample_files.

(** The lines of the sample report. *)
Definition sample_table : list TableRow :=
  Eval vm_compute in default [] (fst <$> sample_report).

(** What [api_report_data] returns for the sample store. *)
Definition sample_result : ReportData :=
  Eval vm_compute in
    default {| files := []; total_files := 0; available_regions := ∅;
               available_periods := ∅; available_kbks := ∅ |} sample_data.

(** A stored report whose period names the 31st of February. *)
Definition bad_date_files : list Upload := [{| path := lit "bad.pdf" |}].

Definition bad_date_pages (p : str) : list Page :=
  [period_page (lit "31.02.2023 - 01.03.2023")].

(** Two stored files with the same table row: twice in the first file,
    once in the second. *)
Definition twin_files : list Upload :=
  [{| path := lit "a" |}; {| path := lit "b" |}].

Definition twin_pages (p : str) : list Page :=
  if bool_decide (p = lit "a") then [one_row_page; one_row_page]
  else [one_row_page].

Definition twin_table : list TableRow :=
  Eval vm_compute in
    default [] (fst <$> page_report (λ _, true) twin_pages twin_files).

(** What [api_report_data] returns for the two files with the same row. *)
Definition twin_result : ReportData :=
  Eval vm_compute in
    default {| files := []; total_files := 0; available_regions := ∅;
               available_periods := ∅; available_kbks := ∅ |}
      (api_report_data (λ _, true) twin_pages twin_files).

(** The invariant of the key list: [seen] is the set of the keys listed,
    and no key is listed twice. *)
Definition keys_inv (st : list ReportKey * gset ReportKey) : Prop :=
  NoDup st.1 ∧ ∀ k, k ∈ st.2 ↔ k ∈ st.1.

(** * Properties *)

(** ** The matcher is sound for the language of a pattern *)

(** The strings a pattern denotes. *)
Fixpoint matches (r : regex) (s : str) : Prop :=
  match r with
  | Lit t => s = t
  | Rep p lo hi =>
      Forall (λ c, p c = true) s ∧ (lo ≤ length s)%nat
      ∧ match hi with
        | Some h => (length s ≤ lo + (h - lo))%nat
        | None => True
        end
  | Cat r1 r2 => ∃ a b, s = a ++ b ∧ matches r1 a ∧ matches r2 b
  | Group r' => matches r' s
  end.

Lemma strip_prefix_Some (t s r : str) :
  strip_prefix t s = Some r → s = t ++ r.
Proof.
  revert s. induction t as [|a t IH]; intros [|c s]; simpl; try congruence.
  destruct (N.eqb_spec a c) as [->|]; [|congruence].
  intros H. f_equal. by apply IH.
Qed.

Lemma strip_prefix_app (t r : str) : strip_prefix t (t ++ r) = Some r.
Proof. induction t as [|a t IH]; simpl; [done|]. by rewrite N.eqb_refl. Qed.

Lemma exactly_Some (p : N → bool) (n : nat) (s r : str) :
  exactly p n s = Some r →
  ∃ pre, s = pre ++ r ∧ length pre = n ∧ Forall (λ c, p c = true) pre.
Proof.
  revert s. induction n as [|n IH]; intros s; simpl.
  - intros [= ->]. by exists [].
  - destruct s as [|c s]; [done|]. destruct (p c) eqn:Hc; [|done].
    intros (pre & -> & <- & Hall)%IH. exists (c :: pre). by repeat constructor.
Qed.

Lemma greedy_Some {R} (p : N → bool) (n : nat) (s : str)
    (k : str → option R) (v : R) :
  greedy p n s k = Some v →
  ∃ pre r, s = pre ++ r ∧ (length pre ≤ n)%nat
           ∧ Forall (λ c, p c = true) pre ∧ k r = Some v.
Proof.
  revert s. induction n as [|n IH]; intros s; simpl.
  - intros H. exists [], s. repeat split; [simpl; lia|constructor|done].
  - destruct s as [|c s].
    + intros H. exists [], []. repeat split; [simpl; lia|constructor|done].
    + destruct (p c) eqn:Hc.
      * destruct (greedy p n s k) as [w|] eqn:Hg.
        -- intros [= ->]. apply IH in Hg as (pre & r & -> & Hlen & Hall & Hk).
           exists (c :: pre), r. repeat split; [simpl; lia|by constructor|done].
        -- intros H. exists [], (c :: s).
           repeat split; [simpl; lia|constructor|done].
      * intros H. exists [], (c :: s).
        repeat split; [simpl; lia|constructor|done].
Qed.

Lemma run_sound {R} (r : regex) (s : str) (caps : list str)
    (k : str → list str → option R) (v : R) :
  run r s caps k = Some v →
  ∃ pre rest caps', s = pre ++ rest ∧ matches r pre ∧ k rest caps' = Some v.
Proof.
  revert s caps k. induction r as [t|p lo hi|r1 IH1 r2 IH2|r IH];
    intros s caps k; simpl.
  - destruct (strip_prefix t s) as [s'|] eqn:Hp; [|done].
    apply strip_prefix_Some in Hp as ->. intros Hk. by exists t, s', caps.
  - destruct (exactly p lo s) as [s'|] eqn:He; [|done].
    apply exactly_Some in He as (pre & -> & Hlo & Hpre).
    intros (mid & r & -> & Hlen & Hmid & Hk)%greedy_Some.
    exists (pre ++ mid), r, caps. rewrite <-(assoc_L (++)).
    split; [done|]. split; [|done].
    split; [by apply Forall_app|]. rewrite length_app. split; [lia|].
    destruct hi; [lia|done].
  - intros (a & rest & caps1 & -> & Ha & Hrun)%IH1.
    apply IH2 in Hrun as (b & rest' & caps2 & -> & Hb & Hk).
    exists (a ++ b), rest', caps2. rewrite <-(assoc_L (++)).
    split; [done|]. split; [|done]. by exists a, b.
  - intros (a & rest & caps1 & -> & Ha & Hk)%IH. eauto 10.
Qed.

Lemma fullmatch_matches (r : regex) (s : str) :
  fullmatch r s = true → matches r s.
Proof.
  unfold fullmatch.
  destruct (run r s [] _) as [u|] eqn:Hrun; [|done]. intros _.
  apply run_sound in Hrun as (pre & rest & caps' & -> & Hm & Hk).
  destruct rest; [|done]. by rewrite (right_id_L [] (++)).
Qed.

(** A successful [search] found the pattern somewhere in the string. *)
Lemma search_matches (r : regex) (s : str) (caps : list str) :
  search r s = Some caps → ∃ a pre b, s = a ++ pre ++ b ∧ matches r pre.
Proof.
  induction s as [|c s IH]; simpl.
  - destruct (run r [] [] _) as [u|] eqn:Hrun; [|done]. intros _.
    apply run_sound in Hrun as (pre & rest & caps' & Heq & Hm & _).
    by exists [], pre, rest.
  - destruct (run r (c :: s) [] _) as [u|] eqn:Hrun.
    + intros _. apply run_sound in Hrun as (pre & rest & caps' & Heq & Hm & _).
      by exists [], pre, rest.
    + intros (a & pre & b & -> & Hm)%IH. by exists (c :: a), pre, b.
Qed.

(** The shapes of the column patterns. *)
Lemma matches_times (n : nat) (p : N → bool) (s : str) :
  matches (times n p) s → length s = n ∧ Forall (λ c, p c = true) s.
Proof. simpl. intros (? & ? & ?). split; [lia|done]. Qed.

Lemma fullmatch_bank_base (s : str) :
  fullmatch RE_BANK_BASE s = true → length s = 7%nat ∨ length s = 8%nat.
Proof. intros (_ & ? & ?)%fullmatch_matches. lia. Qed.

Lemma fullmatch_iik_prefix (s : str) :
  fullmatch RE_IIK_PREFIX s = true →
  length s = 7%nat ∧ take 2 s = lit "KZ".
Proof.
  intros (a & b & -> & -> & Hb)%fullmatch_matches.
  apply matches_times in Hb as [Hb _]. by rewrite length_app, Hb.
Qed.

Lemma fullmatch_kbk (s : str) : fullmatch RE_KBK s = true → length s = 6%nat.
Proof. by intros [? _]%fullmatch_matches%matches_times. Qed.

Lemma fullmatch_suffix (s : str) :
  fullmatch RE_SUFFIX s = true → length s = 1%nat.
Proof. by intros [? _]%fullmatch_matches%matches_times. Qed.

Lemma fullmatch_iik_cont (s : str) : fullmatch RE_IIK_CONT s = true → s ≠ [].
Proof. intros (_ & Hlen & _)%fullmatch_matches ->. simpl in Hlen. lia. Qed.

(** ** Stable sorting *)

Section SortedFacts.
Context {A K : Type} (key : A → K) (le : K → K → bool).

Lemma insert_by_perm (x : A) (l : list A) : insert_by key le x l ≡ₚ x :: l.
Proof.
  induction l as [|y l IH]; simpl; [done|].
  destruct (le (key x) (key y)); [done|]. rewrite IH. apply Permutation_swap.
Qed.

Lemma sorted_perm (l : list A) : sorted key le l ≡ₚ l.
Proof.
  induction l as [|x l IH]; simpl; [done|].
  unfold sorted in *. simpl. by rewrite insert_by_perm, IH.
Qed.

Lemma elem_of_sorted (x : A) (l : list A) : x ∈ sorted key le l ↔ x ∈ l.
Proof. by rewrite sorted_perm. Qed.

Hypothesis le_total : ∀ a b, le a b = true ∨ le b a = true.
Hypothesis le_trans : ∀ a b c, le a b = true → le b c = true → le a c = true.

Local Abbreviation key_le := (λ a b : A, le (key a) (key b) = true).

Lemma insert_by_sorted (x : A) (l : list A) :
  StronglySorted key_le l → StronglySorted key_le (insert_by key le x l).
Proof.
  induction 1 as [|y l Hl IH Hy]; simpl; [by repeat constructor|].
  destruct (le (key x) (key y)) eqn:Hxy.
  - constructor; [by constructor|]. constructor; [done|].
    eapply Forall_impl; [exact Hy|]. intros z Hz. by eapply le_trans.
  - constructor; [done|]. rewrite insert_by_perm. constructor; [|done].
    destruct (le_total (key x) (key y)); [congruence|done].
Qed.

Lemma sorted_StronglySorted (l : list A) :
  StronglySorted key_le (sorted key le l).
Proof.
  induction l as [|x l IH]; [constructor|]. by apply insert_by_sorted.
Qed.

(** In a sorted list the keys grow with the index. *)
Lemma sorted_lookup_le (l : list A) (i j : nat) (a b : A) :
  (i < j)%nat → sorted key le l !! i = Some a → sorted key le l !! j = Some b →
  le (key a) (key b) = true.
Proof.
  intros Hij Ha Hb. pose proof (sorted_StronglySorted l) as Hs.
  revert i j Hij Ha Hb. induction Hs as [|y l' Hl IH Hy]; intros i j Hij Ha Hb.
  - done.
  - destruct j as [|j]; [lia|]. destruct i as [|i]; simpl in *.
    + injection Ha as ->. rewrite Forall_forall in Hy. apply Hy.
      by eapply list_elem_of_lookup_2.
    + apply (IH i j); [lia|done..].
Qed.

(** The first element found in a sorted list is a least one. *)
Lemma find_sorted_least (p : A → bool) (l : list A) (a b : A) :
  List.find p (sorted key le l) = Some a → b ∈ l → p b = true →
  le (key a) (key b) = true.
Proof.
  intros Hf Hb Hpb. apply elem_of_sorted in Hb.
  pose proof (sorted_StronglySorted l) as Hs.
  induction Hs as [|y l' Hl IH Hy]; [by apply elem_of_nil in Hb|].
  simpl in Hf. destruct (p y) eqn:Hpy.
  - injection Hf as ->. apply elem_of_cons in Hb as [->|Hb].
    + destruct (le_total (key a) (key a)); done.
    + rewrite Forall_forall in Hy. by apply Hy.
  - apply elem_of_cons in Hb as [->|Hb]; [congruence|]. by apply IH.
Qed.

End SortedFacts.

Section Stability.
Context {A K : Type} `{EqDecision K} (key : A → K) (le : K → K → bool).
Hypothesis le_refl : ∀ a, le a a = true.

Lemma filter_insert_by (k : K) (x : A) (l : list A) :
  filter (λ y, key y = k) (insert_by key le x l)
  = filter (λ y, key y = k) (x :: l).
Proof.
  induction l as [|y l IH]; simpl; [done|].
  destruct (le (key x) (key y)) eqn:Hxy; [done|].
  rewrite filter_cons, IH, !filter_cons.
  destruct (decide (key y = k)) as [Hy|]; [|done].
  destruct (decide (key x = k)) as [Hx|]; [|done].
  rewrite Hx, Hy, le_refl in Hxy. done.
Qed.

(** Elements with the same key keep their order. *)
Lemma sorted_stable (k : K) (l : list A) :
  filter (λ y, key y = k) (sorted key le l) = filter (λ y, key y = k) l.
Proof.
  induction l as [|x l IH]; [done|]. unfold sorted in *. simpl.
  by rewrite filter_insert_by, !filter_cons, IH.
Qed.

End Stability.

(** The orders used as sort keys. *)
Lemma Qlt_bool_iff (a b : Q) : Qlt_bool a b = true ↔ (a < b)%Q.
Proof.
  unfold Qlt_bool. rewrite negb_true_iff, <-not_true_iff_false, Qle_bool_iff.
  split; [apply Qnot_le_lt|apply Qlt_not_le].
Qed.

Lemma pair_le_iff (a b : Q * Q) :
  pair_le a b = true ↔ (a.1 < b.1)%Q ∨ ((a.1 == b.1)%Q ∧ (a.2 <= b.2)%Q).
Proof.
  unfold pair_le.
  by rewrite orb_true_iff, andb_true_iff, Qlt_bool_iff, Qeq_bool_iff,
    Qle_bool_iff.
Qed.

Lemma pair_le_total (a b : Q * Q) : pair_le a b = true ∨ pair_le b a = true.
Proof.
  rewrite !pair_le_iff.
  destruct (Q_dec a.1 b.1) as [[H|H]|H]; [by left; left|by right; left|].
  destruct (Qlt_le_dec a.2 b.2) as [H2|H2].
  - left; right. split; [done|]. by apply Qlt_le_weak.
  - right; right. split; [by symmetry|done].
Qed.

Lemma pair_le_trans (a b c : Q * Q) :
  pair_le a b = true → pair_le b c = true → pair_le a c = true.
Proof.
  rewrite !pair_le_iff. intros [H1|[H1 H1']] [H2|[H2 H2']].
  - left. by eapply Qlt_trans.
  - left. by rewrite <-H2.
  - left. by rewrite H1.
  - right. split; [by rewrite H1|by eapply Qle_trans].
Qed.

(** ** The parser *)

Lemma elem_of_List_filter {A} (p : A → bool) (l : list A) (x : A) :
  x ∈ List.filter p l ↔ x ∈ l ∧ p x = true.
Proof. by rewrite !list_elem_of_In, filter_In. Qed.

Lemma find_Some_elem {A} (p : A → bool) (l : list A) (x : A) :
  List.find p l = Some x → x ∈ l ∧ p x = true.
Proof. rewrite list_elem_of_In. apply find_some. Qed.

Lemma find_None_elem {A} (p : A → bool) (l : list A) (x : A) :
  List.find p l = None → x ∈ l → p x = false.
Proof. rewrite list_elem_of_In. intros H. by apply find_none. Qed.

Lemma elem_of_main_line (words : list Word) (tp : Q) (w : Word) :
  w ∈ main_line words tp ↔ w ∈ words ∧ in_line tp w = true.
Proof. unfold main_line. by rewrite elem_of_sorted, elem_of_List_filter. Qed.

Lemma elem_of_between (words : list Word) (tp nt : Q) (w : Word) :
  w ∈ between words tp nt ↔ w ∈ words ∧ in_between tp nt w = true.
Proof. unfold between. by rewrite elem_of_sorted, elem_of_List_filter. Qed.

(** The deduplication loop keeps rows of its input, each key once. *)
Lemma elem_of_dedup_rows (rs : list Row) (seen : gset RowKey)
    (uniq : list Row) (r : Row) :
  r ∈ dedup_rows rs seen uniq → r ∈ uniq ∨ r ∈ rs.
Proof.
  revert seen uniq. induction rs as [|x rs IH]; intros seen uniq; simpl.
  - by left.
  - destruct (decide (row_key x ∈ seen)); intros [H|H]%IH.
    + by left.
    + right. by right.
    + apply elem_of_app in H as [H|H%list_elem_of_singleton]; [by left|].
      subst. right. by left.
    + right. by right.
Qed.

Lemma dedup_rows_NoDup (rs : list Row) (seen : gset RowKey) (uniq : list Row) :
  (∀ k, k ∈ seen ↔ k ∈ row_key <$> uniq) →
  NoDup (row_key <$> uniq) →
  NoDup (row_key <$> dedup_rows rs seen uniq).
Proof.
  revert seen uniq. induction rs as [|x rs IH]; intros seen uniq Hseen Hnd.
  - done.
  - simpl. destruct (decide (row_key x ∈ seen)) as [Hin|Hout].
    + by apply IH.
    + apply IH.
      * intros k. rewrite fmap_app, elem_of_app, elem_of_union, Hseen.
        simpl. rewrite list_elem_of_singleton, elem_of_singleton. tauto.
      * rewrite fmap_app. apply NoDup_app. split; [done|]. split.
        -- intros k Hk ->%list_elem_of_singleton. by apply Hout, Hseen.
        -- apply NoDup_singleton.
Qed.

Lemma elem_of_build_rows (words anchors : list Word) (r : Row) :
  r ∈ build_rows words anchors →
  ∃ iw nt, iw ∈ anchors ∧ r = build_row words iw nt.
Proof.
  induction anchors as [|iw rest IH]; simpl.
  - by intros ?%elem_of_nil.
  - intros [->|H]%elem_of_cons.
    + eexists iw, _. split; [by left|done].
    + destruct (IH H) as (iw' & nt & ? & ->). exists iw', nt.
      split; [by right|done].
Qed.

Lemma elem_of_parse_rows (page : Page) (r : Row) :
  r ∈ _parse_rows_by_columns page →
  ∃ iw nt, iw ∈ extract_words page ∧ fullmatch RE_IIN (text iw) = true
           ∧ r = build_row (extract_words page) iw nt.
Proof.
  unfold _parse_rows_by_columns.
  intros [?%elem_of_nil|H]%elem_of_dedup_rows; [done|].
  apply elem_of_build_rows in H as (iw & nt & Hiw & ->).
  unfold iin_words_of in Hiw.
  apply elem_of_sorted, elem_of_List_filter in Hiw as [? ?]. eauto.
Qed.

Lemma elem_of_document_rows (pages : list Page) (r : Row) :
  r ∈ rows (parse_report_pdf pages) →
  ∃ page, page ∈ pages ∧ r ∈ _parse_rows_by_columns page.
Proof.
  simpl. rewrite list_elem_of_In, in_concat.
  intros (l & Hl%list_elem_of_In & Hr%list_elem_of_In).
  apply list_elem_of_fmap in Hl as (page & -> & ?). eauto.
Qed.

Lemma merge_iik_length (prefix : str) (parts : list str) :
  (length (merge_iik prefix parts) ≤ 20)%nat.
Proof.
  unfold merge_iik. simpl.
  destruct (Nat.ltb_spec 20 (length (prefix ++ concat parts))).
  - rewrite length_take. lia.
  - done.
Qed.

Lemma merge_iik_take (parts : list str) :
  merge_iik [] parts = take 20 (concat parts).
Proof.
  unfold merge_iik. simpl.
  destruct (Nat.ltb_spec 20 (length (concat parts))); [done|].
  by rewrite take_ge.
Qed.

(** A column variable keeps its value over words its test rejects. *)
Lemma classify_iik_prefix_none (l : list Word) (c : Cols) :
  Forall (λ w, is_iik_prefix w = false) l →
  iik_prefix (fold_left classify l c) = iik_prefix c.
Proof.
  revert c. induction l as [|w l IH]; intros c Hl; [done|].
  apply Forall_cons in Hl as [Hw Hl]. simpl. rewrite IH by done.
  simpl. by rewrite Hw.
Qed.

(** What the loop over the main line leaves in [amount]. *)
Lemma classify_amount (l : list Word) (c : Cols) :
  col_amount (fold_left classify l c) = col_amount c
  ∨ fullmatch RE_AMOUNT (col_amount (fold_left classify l c)) = true.
Proof.
  revert c. induction l as [|w l IH]; intros c; [by left|].
  simpl. destruct (IH (classify c w)) as [->|H]; [|by right].
  simpl. destruct (is_amount w) eqn:Hw; [|by left].
  right. unfold is_amount in Hw. by apply andb_true_iff in Hw as [_ ?].
Qed.

Lemma merge_iik_cut (prefix : str) (parts : list str) :
  merge_iik prefix parts = take 20 (prefix ++ concat parts).
Proof.
  unfold merge_iik. simpl.
  destruct (Nat.ltb_spec 20 (length (prefix ++ concat parts))); [done|].
  by rewrite take_ge.
Qed.

(** C1, as stated, fails: the rows of a document whose two pages show the
    same table row contain that row twice. *)
Lemma document_rows_repeat :
  ¬ NoDup (row_key <$> rows (parse_report_pdf [one_row_page; one_row_page])).
Proof.
  vm_compute. intros [Hnotin _]%NoDup_cons. apply Hnotin. by left.
Qed.

(** C1, amended: the rows of a document are the rows of its pages one
    after the other, and within the rows of one page no two share the
    six-field tuple (payment number, identifier, bank code, account number,
    budget code, amount). *)
Theorem page_rows_unique (pages : list Page) :
  rows (parse_report_pdf pages) = concat (_parse_rows_by_columns <$> pages)
  ∧ ∀ page, NoDup (row_key <$> _parse_rows_by_columns page).
Proof.
  split; [done|]. intros page. unfold _parse_rows_by_columns.
  apply dedup_rows_NoDup.
  - intros k. simpl. rewrite elem_of_nil. set_solver.
  - constructor.
Qed.

(** Each row is built for one anchor, with the [top] of the anchor that
    follows it in the sorted list, or [10**9] after the last one. *)
Lemma elem_of_build_rows_next (words anchors : list Word) (r : Row) :
  r ∈ build_rows words anchors →
  ∃ before iw after,
    anchors = before ++ iw :: after
    ∧ r = build_row words iw (next_top_of after).
Proof.
  induction anchors as [|iw rest IH]; simpl.
  - by intros ?%elem_of_nil.
  - intros [->|H]%elem_of_cons.
    + exists [], iw, rest. split; [done|]. by destruct rest.
    + destruct (IH H) as (before & iw' & after & -> & ->).
      by exists (iw :: before), iw', after.
Qed.

(** C6: no account number of a parsed document is longer than 20
    characters. The account number of a row is the account prefix read on
    the line of its anchor, followed by the fragments of the continuation
    region of that anchor in reading order, cut at 20 characters: the
    merged text itself when it has at most 20 characters, its first 20
    characters otherwise. The parser is a total function, so that a longer
    merge is cut without failing. *)
Theorem account_number_at_most_20 (pages : list Page) :
  Forall (λ r,
      (length (iik r) ≤ 20)%nat
      ∧ ∃ page before iw after,
          page ∈ pages
          ∧ iin_words_of (extract_words page) = before ++ iw :: after
          ∧ iin_bin r = text iw
          ∧ let words := extract_words page in
            let merged :=
              iik_prefix (fold_left classify (main_line words (top iw))
                            no_cols)
              ++ concat (text <$> List.filter is_iik_cont
                                    (between words (top iw)
                                       (next_top_of after))) in
            iik r = take 20 merged
            ∧ length (iik r) = Nat.min 20 (length merged)
            ∧ ((length merged ≤ 20)%nat → iik r = merged))
    (rows (parse_report_pdf pages)).
Proof.
  apply Forall_forall. intros r (page & Hpage & Hr)%elem_of_document_rows.
  unfold _parse_rows_by_columns in Hr.
  apply elem_of_dedup_rows in Hr as [?%elem_of_nil|Hr]; [done|].
  apply elem_of_build_rows_next in Hr as (before & iw & after & Hsplit & ->).
  split; [apply merge_iik_length|].
  exists page, before, iw, after. split; [done|]. split; [done|].
  split; [done|]. simpl. rewrite merge_iik_cut.
  split; [done|]. split; [by rewrite length_take|]. intros Hlen.
  by rewrite take_ge.
Qed.

(** ** The column tests *)

Lemma x0_between_iff (lo hi : Q) (w : Word) :
  x0_between lo hi w = true ↔ (lo <= x0 w)%Q ∧ (x0 w <= hi)%Q.
Proof. unfold x0_between. by rewrite andb_true_iff, !Qle_bool_iff. Qed.

Lemma is_bank_base_true (w : Word) :
  is_bank_base w = true →
  (320 <= x0 w)%Q ∧ (x0 w <= 385)%Q
  ∧ (length (text w) = 7%nat ∨ length (text w) = 8%nat).
Proof.
  unfold is_bank_base.
  intros [[? ?]%x0_between_iff ?%fullmatch_bank_base]%andb_true_iff. done.
Qed.

Lemma is_iik_prefix_true (w : Word) :
  is_iik_prefix w = true →
  (385 <= x0 w)%Q ∧ (x0 w <= 470)%Q ∧ length (text w) = 7%nat.
Proof.
  unfold is_iik_prefix.
  intros [[? ?]%x0_between_iff [? _]%fullmatch_iik_prefix]%andb_true_iff. done.
Qed.

Lemma is_kbk_true (w : Word) :
  is_kbk w = true →
  (420 <= x0 w)%Q ∧ (x0 w <= 500)%Q ∧ length (text w) = 6%nat.
Proof.
  unfold is_kbk.
  intros [[? ?]%x0_between_iff ?%fullmatch_kbk]%andb_true_iff. done.
Qed.

Lemma is_amount_true (w : Word) : is_amount w = true → (505 <= x0 w)%Q.
Proof.
  unfold is_amount. by intros [?%Qle_bool_iff _]%andb_true_iff.
Qed.

(** C9, as stated, fails: a word on the shared bound 385 written KZ and
    five alphanumerics passes both the bank-code test and the
    account-prefix test. *)
Lemma boundary_word_accepted_twice :
  is_bank_base boundary_word = true ∧ is_iik_prefix boundary_word = true
  ∧ accepting boundary_word = 2%nat.
Proof. by vm_compute. Qed.

(** C9, amended: a word is accepted by at most one of the four column
    tests (bank-code base, account prefix, budget code, amount), except a
    word whose [x0] is exactly 385, the bound shared by the bank-code and
    account ranges, which the bank-code test and the account-prefix test
    may both accept; no other pair of tests accepts the same word. *)
Theorem at_most_one_column_off_the_bound (w : Word) :
  (accepting w ≤ 1)%nat
  ∨ ((x0 w == 385)%Q ∧ accepting w = 2%nat
     ∧ is_bank_base w = true ∧ is_iik_prefix w = true).
Proof.
  unfold accepting.
  destruct (is_bank_base w) eqn:Hb; [apply is_bank_base_true in Hb|];
  destruct (is_iik_prefix w) eqn:Hi; [apply is_iik_prefix_true in Hi| |
                                      apply is_iik_prefix_true in Hi|];
  (destruct (is_kbk w) eqn:Hk; [apply is_kbk_true in Hk|]);
  (destruct (is_amount w) eqn:Ha; [apply is_amount_true in Ha|]);
  simpl; try (left; lia);
  try (exfalso; destruct_and?; first [lra|lia]).
  right. destruct_and?. repeat split; try done. lra.
Qed.

(** ** Continuation lines *)

Lemma merge_bank_7 (base suffix : str) :
  length base = 7%nat → suffix ≠ [] → merge_bank base suffix = base ++ suffix.
Proof.
  intros Hlen Hs. unfold merge_bank.
  rewrite Hlen, (bool_decide_eq_false_2 _ Hs). simpl.
  rewrite bool_decide_eq_false_2; [done|]. intros ->. done.
Qed.

Lemma merge_bank_not_7 (base suffix : str) :
  length base ≠ 7%nat → merge_bank base suffix = base.
Proof.
  intros Hlen. unfold merge_bank.
  destruct (Nat.eqb_spec (length base) 7); [done|].
  by rewrite andb_false_r.
Qed.

Lemma merge_bank_no_suffix (base : str) : merge_bank base [] = base.
Proof. unfold merge_bank. simpl. by rewrite andb_false_r. Qed.

(** C5: let [base] be the bank-code base read on the anchor's line. When
    [base] has 7 characters and the continuation region holds a word that
    is a single uppercase letter in the bank-code range, the bank code of
    the row is [base] followed by that letter (the first such word in
    reading order) and has 8 characters. When [base] has 8 characters, or
    the region holds no such word, the bank code is [base]. *)
Theorem bank_code_continuation (words : list Word) (iw : Word) (next_top : Q) :
  let base := bank_base (fold_left classify (main_line words (top iw)) no_cols) in
  let r := build_row words iw next_top in
  let candidate w :=
    w ∈ words ∧ in_between (top iw) next_top w = true
    ∧ is_bank_suffix w = true in
  (length base = 7%nat → (∃ w, candidate w) →
   ∃ w, candidate w
        ∧ (∀ w', candidate w' →
                 pair_le (reading_order w) (reading_order w') = true)
        ∧ bank_code r = base ++ text w
        ∧ length (bank_code r) = 8%nat)
  ∧ (length base = 8%nat → bank_code r = base)
  ∧ ((∀ w, ¬ candidate w) → bank_code r = base).
Proof.
  intros base r candidate. subst r. simpl. fold base.
  unfold first_text.
  destruct (List.find is_bank_suffix (between words (top iw) next_top))
    as [w|] eqn:Hfind.
  - pose proof Hfind as [[Hw Hbtw]%elem_of_between Hsuf]%find_Some_elem.
    assert (length (text w) = 1%nat) as Hlen.
    { unfold is_bank_suffix in Hsuf. apply andb_true_iff in Hsuf as [_ Hm].
      by apply fullmatch_suffix. }
    split; [|split].
    + intros Hbase _. exists w. split; [done|]. split.
      * intros w' (Hw' & Hbtw' & Hsuf').
        eapply (find_sorted_least reading_order pair_le pair_le_total
                  pair_le_trans); [exact Hfind| |done].
        by apply elem_of_List_filter.
      * rewrite merge_bank_7; [|done|by destruct (text w)].
        split; [done|]. rewrite length_app. lia.
    + intros Hbase. apply merge_bank_not_7. lia.
    + intros Hno. destruct (Hno w). done.
  - split; [|split].
    + intros _ [w (Hw & Hbtw & Hsuf)]. exfalso.
      assert (is_bank_suffix w = false); [|congruence].
      eapply find_None_elem; [exact Hfind|]. by apply elem_of_between.
    + intros _. apply merge_bank_no_suffix.
    + intros _. apply merge_bank_no_suffix.
Qed.

(** C5 at a sample row: the base ABCDEFG on the anchor's line and the
    letter H below it give the bank code ABCDEFGH. *)
Lemma bank_code_continuation_sample :
  bank_code (build_row
               [anchor_word; word "ABCDEFG" 330 50; word "H" 330 60]
               anchor_word NO_NEXT)
  = lit "ABCDEFGH".
Proof.
  pose proof (bank_code_continuation
                [anchor_word; word "ABCDEFG" 330 50; word "H" 330 60]
                anchor_word NO_NEXT) as [H _].
  destruct H as (w & (Hw & _ & Hsuf) & _ & -> & _).
  - by vm_compute.
  - exists (word "H" 330 60). split; [|by vm_compute].
    apply list_elem_of_In. simpl. tauto.
  - apply list_elem_of_In in Hw. simpl in Hw.
    destruct Hw as [<-|[<-|[<-|[]]]]; by vm_compute in Hsuf |- *.
Defined.

(** C10, as stated, fails: with no account prefix on the anchor's line and
    the fragment KZ99 below it in the account column, the account number is
    KZ99, which begins with KZ. *)
Lemma fragment_account_begins_with_KZ :
  let r := build_row kz_fragment_words anchor_word NO_NEXT in
  Forall (λ w, is_iik_prefix w = false)
    (main_line kz_fragment_words (top anchor_word))
  ∧ text <$> List.filter is_iik_cont
               (between kz_fragment_words (top anchor_word) NO_NEXT)
    = [lit "KZ99"]
  ∧ iik r = lit "KZ99"
  ∧ take 2 (iik r) = lit "KZ".
Proof. vm_compute. repeat split; repeat constructor. Qed.

(** C10, amended: when no word of the anchor's line passes the
    account-prefix test and the continuation region holds a word that
    passes the account-fragment test, the account number of the row is the
    concatenation of the fragments in reading order, cut at 20 characters,
    and it is not empty. *)
Theorem account_from_fragments (words : list Word) (iw : Word) (next_top : Q) :
  let r := build_row words iw next_top in
  let parts :=
    text <$> List.filter is_iik_cont (between words (top iw) next_top) in
  (∀ w, w ∈ words → in_line (top iw) w = true → is_iik_prefix w = false) →
  (∃ w, w ∈ words ∧ in_between (top iw) next_top w = true
        ∧ is_iik_cont w = true) →
  iik r = take 20 (concat parts) ∧ iik r ≠ [].
Proof.
  intros r parts Hnone (w & Hw & Hbtw & Hcont). subst r. simpl.
  rewrite classify_iik_prefix_none.
  2:{ apply Forall_forall. intros w' [? ?]%elem_of_main_line. by apply Hnone. }
  simpl. rewrite merge_iik_take. fold parts. split; [done|].
  assert (text w ∈ parts) as Hin.
  { apply list_elem_of_fmap_2, elem_of_List_filter. split; [|done].
    by apply elem_of_between. }
  assert (text w ≠ []) as Hne.
  { unfold is_iik_cont in Hcont. apply andb_true_iff in Hcont as [_ Hm].
    by apply fullmatch_iik_cont. }
  clear -Hin Hne. induction parts as [|p parts IH].
  - by apply elem_of_nil in Hin.
  - simpl. apply elem_of_cons in Hin as [<-|Hin].
    + destruct (text w); [done|]. done.
    + destruct p; [by apply IH|done].
Qed.

(** C10 at the sample row. *)
Lemma account_from_fragments_sample :
  iik (build_row kz_fragment_words anchor_word NO_NEXT) = lit "KZ99".
Proof.
  pose proof (account_from_fragments kz_fragment_words anchor_word NO_NEXT)
    as H.
  destruct H as [-> _]; [| |by vm_compute].
  - intros w Hw. apply list_elem_of_In in Hw. simpl in Hw.
    destruct Hw as [<-|[<-|[]]]; intros _; by vm_compute.
  - exists (word "KZ99" 400 60). split; [|by vm_compute].
    apply list_elem_of_In. simpl. tauto.
Defined.

(** ** Documents without anchors or labels *)

Lemma str_in_app (a t b : str) : str_in t (a ++ t ++ b) = true.
Proof.
  induction a as [|c a IH]; simpl.
  - destruct (t ++ b) eqn:Heq; simpl; rewrite <-Heq, strip_prefix_app; done.
  - destruct (strip_prefix t (c :: a ++ t ++ b)); done.
Qed.

(** A pattern that begins with a label is not found in a text without the
    label. *)
Lemma meta_field_absent (label : str) (r : regex) (s : str) :
  str_in label s = false → meta_field (Cat (Lit label) r) s = [].
Proof.
  intros Hin. unfold meta_field.
  destruct (search _ s) as [caps|] eqn:Hs; [|done].
  apply search_matches in Hs as (a & pre & b & -> & x & y & -> & -> & _).
  by rewrite <-(assoc_L (++)), str_in_app in Hin.
Qed.

Lemma List_filter_none {A} (p : A → bool) (l : list A) :
  (∀ x, x ∈ l → p x = false) → List.filter p l = [].
Proof.
  induction l as [|x l IH]; intros H; simpl; [done|].
  rewrite (H x) by by left. apply IH. intros y Hy. apply H. by right.
Qed.

(** C7: a document none of whose words is a 12-digit string has no rows,
    and a label that does not occur in the cleaned text of the document
    leaves its metadata field empty; [parse_report_pdf] is a total
    function, so that no input makes it fail. *)
Theorem no_anchor_no_label (pages : list Page) :
  let d := parse_report_pdf pages in
  ((∀ page w, page ∈ pages → w ∈ extract_words page →
              fullmatch RE_IIN (text w) = false) →
   rows d = [])
  ∧ (str_in LABEL_REGION (full_text_of pages) = false → region d = [])
  ∧ (str_in LABEL_REPORT_DATE (full_text_of pages) = false →
     report_date d = [])
  ∧ (str_in LABEL_PERIOD (full_text_of pages) = false → period d = []).
Proof.
  simpl. split; [|split; [|split]].
  - intros Hno. induction pages as [|page pages IH]; [done|].
    rewrite fmap_cons, concat_cons.
    rewrite IH by (intros p w Hp; apply Hno; by right).
    unfold _parse_rows_by_columns, iin_words_of.
    rewrite List_filter_none; [done|].
    intros w Hw. apply (Hno page); [by left|done].
  - apply (meta_field_absent LABEL_REGION).
  - apply (meta_field_absent LABEL_REPORT_DATE).
  - apply (meta_field_absent LABEL_PERIOD).
Qed.

(** C7 at a sample page. *)
Lemma no_anchor_no_label_sample :
  parse_report_pdf [plain_page]
  = {| region := []; report_date := []; period := []; rows := [] |}.
Proof.
  pose proof (no_anchor_no_label [plain_page]) as (Hrows & Hreg & Hdate & Hper).
  destruct (parse_report_pdf [plain_page]) as [g d p r] eqn:Hd. simpl in *.
  rewrite Hrows, Hreg, Hdate, Hper; [done|by vm_compute..|].
  intros page w ->%list_elem_of_singleton Hw.
  apply list_elem_of_In in Hw. simpl in Hw.
  destruct Hw as [<-|[<-|[]]]; by vm_compute.
Defined.

(** ** The aggregated report *)

Lemma data_lines_app (t1 t2 : list TableRow) :
  data_lines (t1 ++ t2) = data_lines t1 ++ data_lines t2.
Proof. apply List.filter_app. Qed.

Lemma headers_app (t1 t2 : list TableRow) :
  headers (t1 ++ t2) = headers t1 ++ headers t2.
Proof. apply omap_app. Qed.

(** The loops of [page_report] and the list of the keys they add. *)
Lemma emit_rows_keys (pf : ParsedFile) (rs : list Row) (table : list TableRow)
    (ks : list ReportKey) (seen : gset ReportKey) :
  data_lines table = line_of_key <$> ks →
  (emit_rows pf rs (table, seen)).2 = (keys_of_rows pf rs (ks, seen)).2
  ∧ data_lines (emit_rows pf rs (table, seen)).1
    = line_of_key <$> (keys_of_rows pf rs (ks, seen)).1
  ∧ headers (emit_rows pf rs (table, seen)).1 = headers table.
Proof.
  revert table ks seen. induction rs as [|r rs IH]; intros table ks seen Hd.
  - done.
  - simpl. destruct (decide (report_key pf r ∈ seen)); [by apply IH|].
    destruct (IH (table ++ [data_row r]) (ks ++ [report_key pf r])
                ({[report_key pf r]} ∪ seen)) as (? & ? & Hh).
    + by rewrite data_lines_app, fmap_app, Hd.
    + repeat split; [done..|]. rewrite Hh, headers_app. simpl.
      by rewrite (right_id_L [] (++)).
Qed.

Lemma emit_files_keys (pfs : list ParsedFile) (table : list TableRow)
    (ks : list ReportKey) (seen : gset ReportKey) :
  data_lines table = line_of_key <$> ks →
  data_lines (emit_files pfs (table, seen)).1
  = line_of_key <$> (keys_of_files pfs (ks, seen)).1
  ∧ headers (emit_files pfs (table, seen)).1
    = headers table ++ (pf_period <$> pfs).
Proof.
  revert table ks seen. induction pfs as [|pf pfs IH]; intros table ks seen Hd.
  - simpl. by rewrite (right_id_L [] (++)).
  - simpl.
    destruct (emit_rows_keys pf (pf_rows pf) (table ++ [PeriodRow (pf_period pf)])
                ks seen) as (Hseen & Hdata & Hh).
    { rewrite data_lines_app. simpl. by rewrite (right_id_L [] (++)). }
    destruct (emit_rows pf (pf_rows pf) _) as [table' seen'].
    destruct (keys_of_rows pf (pf_rows pf) _) as [ks' seen''].
    simpl in *. subst seen''.
    destruct (IH table' ks' seen' Hdata) as [-> ->]. split; [done|].
    rewrite Hh, headers_app. simpl. by rewrite <-(assoc_L (++)).
Qed.

Lemma keys_of_rows_inv (pf : ParsedFile) (rs : list Row)
    (st : list ReportKey * gset ReportKey) :
  keys_inv st → keys_inv (keys_of_rows pf rs st).
Proof.
  revert st. induction rs as [|r rs IH]; intros [ks seen] [Hnd Hseen]; [done|].
  simpl in *. destruct (decide (report_key pf r ∈ seen)) as [Hin|Hout].
  - by apply IH.
  - apply IH. split; simpl.
    + apply NoDup_app. split; [done|]. split; [|apply NoDup_singleton].
      intros k Hk ->%list_elem_of_singleton. by apply Hout, Hseen.
    + intros k. rewrite elem_of_app, elem_of_union, Hseen,
        list_elem_of_singleton, elem_of_singleton. tauto.
Qed.

Lemma keys_of_files_inv (pfs : list ParsedFile)
    (st : list ReportKey * gset ReportKey) :
  keys_inv st → keys_inv (keys_of_files pfs st).
Proof.
  revert st. induction pfs as [|pf pfs IH]; intros st Hst; [done|].
  simpl. by apply IH, keys_of_rows_inv.
Qed.

(** The keys listed are the keys of the rows, over what was listed
    before. *)
Lemma elem_of_keys_of_rows (pf : ParsedFile) (rs : list Row)
    (st : list ReportKey * gset ReportKey) (k : ReportKey) :
  keys_inv st →
  k ∈ (keys_of_rows pf rs st).1 ↔
  k ∈ st.1 ∨ ∃ r, r ∈ rs ∧ k = report_key pf r.
Proof.
  revert st. induction rs as [|r rs IH]; intros [ks seen] Hinv.
  - simpl. split; [by left|]. intros [?|(r & ?%elem_of_nil & _)]; done.
  - pose proof Hinv as [Hnd Hseen]. simpl in *.
    destruct (decide (report_key pf r ∈ seen)) as [Hin|Hout].
    + rewrite IH by done. simpl. split.
      * intros [?|(r' & ? & ->)]; [by left|]. right. exists r'.
        split; [by right|done].
      * intros [?|(r' & [->|?]%elem_of_cons & ->)]; [by left| |].
        -- left. by apply Hseen.
        -- right. by exists r'.
    + rewrite IH.
      2:{ apply (keys_of_rows_inv pf [r] (ks, seen)) in Hinv. simpl in Hinv.
          by rewrite decide_False in Hinv. }
      simpl. rewrite elem_of_app, list_elem_of_singleton. split.
      * intros [[?| ->]|(r' & ? & ->)]; [by left| |].
        -- right. exists r. split; [by left|done].
        -- right. exists r'. split; [by right|done].
      * intros [?|(r' & [->|?]%elem_of_cons & ->)]; [by left; left| |].
        -- left. by right.
        -- right. by exists r'.
Qed.

Lemma elem_of_keys_of_files (pfs : list ParsedFile)
    (st : list ReportKey * gset ReportKey) (k : ReportKey) :
  keys_inv st →
  k ∈ (keys_of_files pfs st).1 ↔
  k ∈ st.1 ∨ ∃ pf r, pf ∈ pfs ∧ r ∈ pf_rows pf ∧ k = report_key pf r.
Proof.
  revert st. induction pfs as [|pf pfs IH]; intros st Hinv.
  - simpl. split; [by left|]. intros [?|(pf & r & ?%elem_of_nil & _)]; done.
  - simpl. rewrite IH by by apply keys_of_rows_inv.
    rewrite elem_of_keys_of_rows by done. split.
    + intros [[?|(r & ? & ->)]|(pf' & r & ? & ? & ->)]; [by left| |].
      * right. exists pf, r. split; [by left|done].
      * right. exists pf', r. split; [by right|done].
    + intros [?|(pf' & r & [->|?]%elem_of_cons & ? & ->)]; [by left; left| |].
      * left. right. by exists r.
      * right. by exists pf', r.
Qed.

(** ** Dates and their order *)

Lemma lex_le_total (a b : list N) : lex_le a b = true ∨ lex_le b a = true.
Proof.
  revert b. induction a as [|x a IH]; intros [|y b]; simpl; auto.
  destruct (N.ltb_spec x y), (N.ltb_spec y x); auto.
Qed.

Lemma lex_le_trans (a b c : list N) :
  lex_le a b = true → lex_le b c = true → lex_le a c = true.
Proof.
  revert b c. induction a as [|x a IH]; intros [|y b] [|z c]; simpl; try done.
  destruct (N.ltb_spec x y), (N.ltb_spec y x), (N.ltb_spec y z),
    (N.ltb_spec z y), (N.ltb_spec x z), (N.ltb_spec z x);
    try done; try lia.
  apply IH.
Qed.

Lemma lex_le_refl (a : list N) : lex_le a a = true.
Proof. induction a as [|x a IH]; simpl; [done|]. by rewrite N.ltb_irrefl. Qed.

Lemma dt_le_total (a b : datetime) : dt_le a b = true ∨ dt_le b a = true.
Proof. apply lex_le_total. Qed.

Lemma dt_le_trans (a b c : datetime) :
  dt_le a b = true → dt_le b c = true → dt_le a c = true.
Proof. apply lex_le_trans. Qed.

Lemma is_digit_bounds (c : N) : is_digit c = true → 48 ≤ c ≤ 57.
Proof.
  unfold is_digit, in_range.
  intros [?%N.leb_le ?%N.leb_le]%andb_true_iff. lia.
Qed.

(** The shape [dd.mm.yyyy]. *)
Lemma fullmatch_date (s : str) :
  fullmatch (cat DATE) s = true →
  ∃ d1 d2 m1 m2 y1 y2 y3 y4,
    s = [d1; d2; 46; m1; m2; 46; y1; y2; y3; y4]
    ∧ Forall (λ c, is_digit c = true) [d1; d2; m1; m2; y1; y2; y3; y4].
Proof.
  intros (d & ? & -> & [Hd Hfd]%matches_times
          & ? & ? & -> & -> & m & ? & -> & [Hm Hfm]%matches_times
          & ? & y & -> & -> & [Hy Hfy]%matches_times)%fullmatch_matches.
  destruct d as [|d1 [|d2 [|]]]; try done.
  destruct m as [|m1 [|m2 [|]]]; try done.
  destruct y as [|y1 [|y2 [|y3 [|y4 [|]]]]]; try done.
  exists d1, d2, m1, m2, y1, y2, y3, y4. split; [done|].
  apply (Forall_app _ [d1; d2] ([m1; m2] ++ [y1; y2; y3; y4])).
  split; [done|]. by apply Forall_app.
Qed.

Lemma days_in_month_le (y m : N) : days_in_month y m ≤ 31.
Proof.
  unfold days_in_month.
  repeat match goal with |- context [if ?b then _ else _] => destruct b end;
    lia.
Qed.

(** A date read from a string is a midnight of a year up to 9999. *)
Lemma strptime_dmy_fields (s : str) (d : datetime) :
  strptime_dmy s = Some d →
  1 ≤ year d ≤ 9999 ∧ 1 ≤ month d ≤ 12 ∧ 1 ≤ day d ≤ 31
  ∧ hour d = 0 ∧ minute d = 0 ∧ second d = 0 ∧ microsecond d = 0.
Proof.
  unfold strptime_dmy. destruct (fullmatch (cat DATE) s) eqn:Hs; [|done].
  apply fullmatch_date in Hs
    as (d1 & d2 & m1 & m2 & y1 & y2 & y3 & y4 & -> & Hdig).
  destruct (_ && _) eqn:Hok; [|done]. intros [= <-]. simpl.
  repeat (apply andb_true_iff in Hok as [Hok ?]).
  repeat match goal with H : (_ <=? _) = true |- _ => apply N.leb_le in H end.
  pose proof (days_in_month_le
                (int_of_digits [y1; y2; y3; y4]) (int_of_digits [m1; m2])).
  repeat match goal with
         | H : Forall _ (_ :: _) |- _ => apply Forall_cons in H as [?%is_digit_bounds H]
         end.
  cbn [take drop] in *.
  assert (int_of_digits [y1; y2; y3; y4] ≤ 9999)
    by (unfold int_of_digits; simpl; lia).
  repeat split; try done; lia.
Qed.

Lemma strptime_dmy_below_max (s : str) (d : datetime) :
  strptime_dmy s = Some d → dt_le datetime_max d = false.
Proof.
  intros (Hy & Hm & Hd & Hh & Hmi & Hs & Hu)%strptime_dmy_fields.
  destruct d as [y m d h mi sec u]. simpl in *. subst.
  unfold dt_le, dt_fields. simpl.
  destruct (N.ltb_spec 9999 y); [lia|]. destruct (N.ltb_spec y 9999); [done|].
  destruct (N.ltb_spec 12 m); [lia|]. destruct (N.ltb_spec m 12); [done|].
  destruct (N.ltb_spec 31 d); [lia|]. destruct (N.ltb_spec d 31); [done|].
  done.
Qed.

Lemma period_start_unparsable (p : str) :
  parsable p = false → _period_start p = Some datetime_max.
Proof.
  unfold parsable, _period_start. by destruct (search RE_PERIOD_RANGE p).
Qed.

Lemma period_start_parsable (p : str) (d : datetime) :
  parsable p = true → _period_start p = Some d →
  dt_le datetime_max d = false.
Proof.
  unfold parsable, _period_start.
  destruct (search RE_PERIOD_RANGE p); [|done].
  intros _. apply strptime_dmy_below_max.
Qed.

Section ReportFacts.
Variable file_exists : str → bool.
Variable pdf_pages : str → list Page.

(** Every entry of [parsed_files] carries the start of its own period. *)
Lemma report_files_start (fs : list Upload) (pfs : list ParsedFile) :
  report_files file_exists pdf_pages fs = Some pfs →
  Forall (λ pf, _period_start (pf_period pf) = Some (pf_period_start pf)) pfs.
Proof.
  revert pfs. induction fs as [|f fs IH]; intros pfs; simpl.
  - intros [= <-]. constructor.
  - destruct (negb (file_exists (path f))); [by apply IH|].
    destruct (_period_start _) as [start|] eqn:Hstart; [|done]. simpl.
    destruct (report_files file_exists pdf_pages fs) as [rest|]; [|done].
    simpl. intros [= <-]. constructor; [done|]. by apply IH.
Qed.

(** C2: in a report produced by [page_report], the data lines are written
    for a list of nine-field keys (period, region, report date, payment
    number, identifier, bank code, account number, budget code, amount) in
    which no key occurs twice, and which holds the key of every row of
    every parsed file: one [seen] set serves the whole run. *)
Theorem report_keys_unique (fs : list Upload) (table : list TableRow)
    (n : nat) :
  page_report file_exists pdf_pages fs = Some (table, n) →
  ∃ parsed_files ks,
    report_files file_exists pdf_pages fs = Some parsed_files
    ∧ ks = (keys_of_files (sorted pf_period_start dt_le parsed_files)
              ([], ∅)).1
    ∧ data_lines table = line_of_key <$> ks
    ∧ NoDup ks
    ∧ ∀ k, k ∈ ks ↔
           ∃ pf r, pf ∈ parsed_files ∧ r ∈ pf_rows pf ∧ k = report_key pf r.
Proof.
  unfold page_report.
  destruct (report_files file_exists pdf_pages fs) as [pfs|]; [|done].
  simpl. intros [= <- <-]. eexists pfs, _. split; [done|]. split; [done|].
  assert (keys_inv (([] : list ReportKey), (∅ : gset ReportKey))) as Hinv.
  { split; [constructor|]. intros k. simpl. rewrite elem_of_nil. set_solver. }
  split; [|split].
  - by apply emit_files_keys.
  - by apply keys_of_files_inv.
  - intros k. rewrite elem_of_keys_of_files by done. simpl. split.
    + intros [?%elem_of_nil|(pf & r & ?%elem_of_sorted & ?)]; [done|].
      by exists pf, r.
    + intros (pf & r & ? & ?). right. exists pf, r.
      by rewrite elem_of_sorted.
Qed.

(** C3: in a report produced by [page_report], a period header never has a
    later period start than a header below it, an unparsable period
    counting as [datetime.max]; and no header with an unparsable period
    stands above a header with a parsable one. *)
Theorem headers_ascending (fs : list Upload) (table : list TableRow) (n : nat) :
  page_report file_exists pdf_pages fs = Some (table, n) →
  ∀ i j p q, (i < j)%nat →
    headers table !! i = Some p → headers table !! j = Some q →
    (∃ a b, _period_start p = Some a ∧ _period_start q = Some b
            ∧ dt_le a b = true
            ∧ (parsable p = false → a = datetime_max)
            ∧ (parsable q = false → b = datetime_max))
    ∧ (parsable q = true → parsable p = true).
Proof.
  unfold page_report.
  destruct (report_files file_exists pdf_pages fs) as [pfs|] eqn:Hpfs; [|done].
  simpl. intros [= <- <-] i j p q Hij.
  destruct (emit_files_keys (sorted pf_period_start dt_le pfs) [] [] ∅)
    as [_ ->]; [done|]. simpl. rewrite !list_lookup_fmap.
  destruct (sorted _ _ pfs !! i) as [a|] eqn:Ha; [|done].
  destruct (sorted _ _ pfs !! j) as [b|] eqn:Hb; [|done].
  simpl. intros [= <-] [= <-].
  pose proof (sorted_lookup_le pf_period_start dt_le dt_le_total dt_le_trans
                pfs i j a b Hij Ha Hb) as Hle.
  apply report_files_start in Hpfs. rewrite Forall_forall in Hpfs.
  assert (a ∈ pfs) as Hain
    by (eapply elem_of_sorted, list_elem_of_lookup_2, Ha).
  assert (b ∈ pfs) as Hbin
    by (eapply elem_of_sorted, list_elem_of_lookup_2, Hb).
  apply Hpfs in Hain, Hbin. split.
  - exists (pf_period_start a), (pf_period_start b).
    repeat split; [done..| |].
    + intros Hp%period_start_unparsable. congruence.
    + intros Hq%period_start_unparsable. congruence.
  - intros Hq. destruct (parsable (pf_period a)) eqn:Hp; [done|].
    apply period_start_unparsable in Hp.
    pose proof (period_start_parsable _ _ Hq Hbin). congruence.
Qed.

End ReportFacts.

Lemma sample_report_eq :
  page_report sample_exists sample_pages sample_files
  = Some (sample_table, 3%nat).
Proof. vm_compute. reflexivity. Qed.

Lemma twin_report_eq :
  page_report (λ _, true) twin_pages twin_files = Some (twin_table, 2%nat).
Proof. vm_compute. reflexivity. Qed.

(** C2 at a sample store: a row that stands twice in one file and once in
    another, under the same metadata, gives a single data line. *)
Lemma report_keys_unique_sample :
  ∃ ks, data_lines twin_table = line_of_key <$> ks ∧ NoDup ks
        ∧ length (data_lines twin_table) = 1%nat.
Proof.
  destruct (report_keys_unique (λ _, true) twin_pages twin_files
              twin_table 2 twin_report_eq)
    as (pfs & ks & _ & _ & Hd & Hnd & _).
  exists ks. split; [done|]. split; [done|]. by vm_compute.
Defined.

(** C3 at the sample store: the header of January stands above the header
    of February. *)
Lemma headers_ascending_sample :
  ∃ a b, _period_start jan = Some a ∧ _period_start feb = Some b
         ∧ dt_le a b = true.
Proof.
  destruct (headers_ascending sample_exists sample_pages sample_files
              sample_table 3 sample_report_eq 0%nat 1%nat jan feb)
    as [(a & b & Ha & Hb & Hle & _) _]; [lia|by vm_compute..|].
  by exists a, b.
Defined.

(** ** Numeric amounts *)

Lemma is_digit_not_float_space (c : N) :
  is_digit c = true → is_float_space c = false.
Proof.
  intros ?%is_digit_bounds. unfold is_float_space, in_range.
  repeat match goal with
         | |- context [?a <=? ?b] => destruct (N.leb_spec a b)
         | |- context [?a =? ?b] => destruct (N.eqb_spec a b)
         end; simpl; try done; lia.
Qed.

Lemma is_digit_not_upper (c : N) : is_digit c = true → is_upper c = false.
Proof.
  intros ?%is_digit_bounds. unfold is_upper, in_range.
  destruct (N.leb_spec 65 c); [lia|done].
Qed.

(** The shape of an amount: a digit, digits and commas, a point and two
    digits. *)
Lemma fullmatch_amount (s : str) :
  fullmatch RE_AMOUNT s = true →
  ∃ a mid d1 d2,
    s = a :: mid ++ [46; d1; d2]
    ∧ is_digit a = true ∧ Forall (λ c, is_digit_comma c = true) mid
    ∧ is_digit d1 = true ∧ is_digit d2 = true.
Proof.
  intros (a & ? & -> & [Ha Hfa]%matches_times
          & mid & ? & -> & (Hmid & _) & ? & d & -> & -> & [Hd Hfd]%matches_times
         )%fullmatch_matches.
  destruct a as [|a [|]]; try done.
  destruct d as [|d1 [|d2 [|]]]; try done.
  apply Forall_cons in Hfa as [? _].
  apply Forall_cons in Hfd as [? [? _]%Forall_cons].
  by exists a, mid, d1, d2.
Qed.

Lemma replace1_comma_digits (mid : str) :
  Forall (λ c, is_digit_comma c = true) mid →
  Forall (λ c, is_digit c = true) (replace1 44 [] mid).
Proof.
  induction 1 as [|c mid Hc _ IH]; [constructor|].
  unfold replace1 in *. simpl. destruct (N.eqb_spec c 44); [done|].
  simpl. constructor; [|done].
  unfold is_digit_comma in Hc. apply orb_true_iff in Hc as [?|?%N.eqb_eq]; done.
Qed.

Lemma replace1_app (a : N) (b s t : str) :
  replace1 a b (s ++ t) = replace1 a b s ++ replace1 a b t.
Proof. apply flat_map_app. Qed.

Lemma replace1_keep (a : N) (b s : str) :
  Forall (λ c, c ≠ a) s → replace1 a b s = s.
Proof.
  induction 1 as [|c s Hc _ IH]; [done|]. unfold replace1 in *. simpl.
  destruct (N.eqb_spec c a); [done|]. by rewrite IH.
Qed.

(** A run of digits is read to its end. *)
Lemma digitpart_tail_digits (ds r : str) :
  Forall (λ c, is_digit c = true) ds →
  match r with
  | c :: _ => is_digit c = false ∧ c ≠ 95
  | [] => True
  end →
  digitpart_tail (ds ++ r) = (ds, r).
Proof.
  intros Hds Hr. induction Hds as [|d ds Hd _ IH].
  - destruct r as [|c r]; [done|]. destruct Hr as [Hd Hc].
    cbn [app digitpart_tail]. rewrite Hd. by destruct (N.eqb_spec c 95).
  - cbn [app digitpart_tail]. by rewrite Hd, IH.
Qed.

Lemma digitpart_digits (d : N) (ds r : str) :
  Forall (λ c, is_digit c = true) (d :: ds) →
  match r with
  | c :: _ => is_digit c = false ∧ c ≠ 95
  | [] => True
  end →
  digitpart (d :: ds ++ r) = Some (d :: ds, r).
Proof.
  intros [Hd Hds]%Forall_cons Hr. cbn [digitpart].
  by rewrite Hd, digitpart_tail_digits.
Qed.

Lemma lstrip_by_head (p : N → bool) (c : N) (s : str) :
  p c = false → lstrip_by p (c :: s) = c :: s.
Proof. intros H. simpl. by rewrite H. Qed.

(** [float] reads a decimal with a point: digits, a point, digits. *)
Lemma py_float_decimal (a : N) (ds : str) (d1 d2 : N) :
  Forall (λ c, is_digit c = true) (a :: ds) →
  is_digit d1 = true → is_digit d2 = true →
  py_float (a :: ds ++ [46; d1; d2])
  = Some (Finite (inject_Z (Z.of_N (int_of_digits ((a :: ds) ++ [d1; d2])))
                  * pow10 (0 - 2))).
Proof.
  intros Hds H1 H2. pose proof Hds as [Ha _]%Forall_cons. unfold py_float.
  rewrite lstrip_by_head by by apply is_digit_not_float_space.
  replace (reverse (a :: ds ++ [46; d1; d2]))
    with (d2 :: reverse (a :: ds ++ [46; d1])).
  2:{ rewrite !app_comm_cons.
      change [46; d1; d2] with ([46; d1] ++ [d2]).
      by rewrite (assoc_L (++)), reverse_snoc. }
  rewrite lstrip_by_head by by apply is_digit_not_float_space.
  rewrite <-reverse_snoc, reverse_involutive.
  rewrite !app_comm_cons, <-(assoc_L (++)). simpl app.
  pose proof (is_digit_bounds a Ha) as Hb.
  unfold sign. destruct (N.eqb_spec a 43); [lia|].
  destruct (N.eqb_spec a 45); [lia|].
  assert (lower a = a) as Hlow
    by (unfold lower; by rewrite is_digit_not_upper).
  rewrite !bool_decide_eq_false_2.
  2:{ rewrite fmap_cons, Hlow. intros [= ?]. lia. }
  2:{ rewrite fmap_cons, Hlow. intros [= ?]. lia. }
  2:{ rewrite fmap_cons, Hlow. intros [= ?]. lia. }
  simpl orb. cbv iota. unfold number.
  rewrite (digitpart_digits a ds [46; d1; d2]) by done.
  rewrite N.eqb_refl.
  pose proof (digitpart_digits d1 [d2] []) as Hfrac. cbn [app] in Hfrac.
  rewrite Hfrac by (by repeat constructor). done.
Qed.

Lemma py_float_amount (s : str) :
  fullmatch RE_AMOUNT s = true → ∃ q, py_float (replace1 44 [] s) = Some (Finite q).
Proof.
  intros (a & mid & d1 & d2 & -> & Ha & Hmid & H1 & H2)%fullmatch_amount.
  pose proof (is_digit_bounds _ Ha). pose proof (is_digit_bounds _ H1).
  pose proof (is_digit_bounds _ H2).
  change (a :: mid ++ [46; d1; d2]) with ([a] ++ mid ++ [46; d1; d2]).
  rewrite !replace1_app.
  rewrite (replace1_keep 44 [] [a]) by (repeat constructor; lia).
  rewrite (replace1_keep 44 [] [46; d1; d2]) by (repeat constructor; lia).
  simpl app. eexists. apply py_float_decimal; [|done..].
  constructor; [done|]. by apply replace1_comma_digits.
Qed.

(** Two digits after the point are hundredths. *)
Lemma hundredths (z : Z) : (inject_Z z * pow10 (0 - 2))%Q = z # 100.
Proof. unfold Qmult, inject_Z. simpl. by rewrite Z.mul_1_r. Qed.

(** Among digits and commas, the digits are what is left without the
    commas. *)
Lemma filter_digit_comma (mid : str) :
  Forall (λ c, is_digit_comma c = true) mid →
  List.filter is_digit mid = replace1 44 [] mid.
Proof.
  induction 1 as [|c mid Hc _ IH]; [done|]. unfold replace1 in *. simpl.
  unfold is_digit_comma in Hc. apply orb_true_iff in Hc as [Hd|Hcomma].
  - rewrite Hd. pose proof (is_digit_bounds _ Hd).
    destruct (N.eqb_spec c 44); [lia|]. simpl. by rewrite IH.
  - apply N.eqb_eq in Hcomma as ->. simpl. exact IH.
Qed.

(** [float] reads in an amount without its commas the number the amount
    denotes. *)
Lemma py_float_amount_value (s : str) :
  fullmatch RE_AMOUNT s = true →
  py_float (replace1 44 [] s) = Some (amount_value s).
Proof.
  intros (a & mid & d1 & d2 & -> & Ha & Hmid & H1 & H2)%fullmatch_amount.
  pose proof (is_digit_bounds _ Ha). pose proof (is_digit_bounds _ H1).
  pose proof (is_digit_bounds _ H2).
  unfold amount_value, cents.
  change (a :: mid ++ [46; d1; d2]) with ([a] ++ mid ++ [46; d1; d2]).
  rewrite !replace1_app, !List.filter_app.
  rewrite (replace1_keep 44 [] [a]) by (repeat constructor; lia).
  rewrite (replace1_keep 44 [] [46; d1; d2]) by (repeat constructor; lia).
  rewrite (filter_digit_comma mid) by done.
  cbn [List.filter app]. rewrite Ha, H1, H2.
  change (is_digit 46) with false. cbv iota.
  rewrite py_float_decimal; [|by constructor; [|apply replace1_comma_digits]
                             |done..].
  rewrite hundredths. reflexivity.
Qed.

(** The amount column of a parsed row: empty or of the amount shape. *)
Lemma parsed_amount (pages : list Page) (r : Row) :
  r ∈ rows (parse_report_pdf pages) →
  amount_in r = [] ∨ fullmatch RE_AMOUNT (amount_in r) = true.
Proof.
  intros (page & _ & Hr)%elem_of_document_rows.
  apply elem_of_parse_rows in Hr as (iw & nt & _ & _ & ->). simpl.
  apply classify_amount.
Qed.

Lemma to_numeric_parsed (pages : list Page) (r : Row) :
  r ∈ rows (parse_report_pdf pages) →
  ∃ q, to_numeric (amount_in r) = Some (Finite q)
       ∧ Finite q = amount_value (amount_in r)
       ∧ Finite q = match py_float (replace1 44 [] (amount_in r)) with
                    | Some v => v
                    | None => Finite 0
                    end.
Proof.
  intros [->|Hm]%parsed_amount.
  - exists 0%Q. by vm_compute.
  - pose proof (py_float_amount_value _ Hm) as Hv.
    destruct (py_float_amount _ Hm) as [q Hq]. exists q. rewrite Hq.
    split; [|split; [congruence|done]]. unfold to_numeric.
    destruct (amount_in r) eqn:Ha; [|done].
    by vm_compute in Hm.
Qed.

(** The conversion of the analytics entry point succeeds on the rows of a
    parsed document and gives each amount the number it denotes. *)
Lemma cleaned_rows (pages : list Page) (rs : list Row) :
  (∀ r, r ∈ rs → r ∈ rows (parse_report_pdf pages)) →
  ∃ cleaned,
    mapM clean_row rs = Some cleaned
    ∧ Forall2 (λ r c,
        c_amount_in c = amount_in r
        ∧ (∃ q, amount_numeric c = Finite q)
        ∧ amount_numeric c = amount_value (amount_in r)
        ∧ amount_numeric c
          = match py_float (replace1 44 [] (amount_in r)) with
            | Some v => v
            | None => Finite 0
            end) rs cleaned.
Proof.
  induction rs as [|r rs IH]; intros Hsub.
  - exists []. split; [done|constructor].
  - destruct IH as (cleaned & Hm & Hf); [intros r' ?; apply Hsub; by right|].
    destruct (to_numeric_parsed pages r) as (q & Hq & Hden & Hval);
      [apply Hsub; by left|].
    eexists (_ :: cleaned). split.
    + apply mapM_Some. apply mapM_Some in Hm. constructor; [|done].
      unfold clean_row. rewrite Hq. done.
    + constructor; [|done]. simpl. split; [done|]. split; [by exists q|].
      done.
Qed.



(** ** The order of the analytics view *)

(** Zero-padded numbers of one width compare as the numbers do. *)
Lemma lex_le_pad (w : nat) (n m : N) (s t : list N) :
  n < 10 ^ N.of_nat w → m < 10 ^ N.of_nat w →
  lex_le (pad w n ++ s) (pad w m ++ t)
  = if n <? m then true else if m <? n then false else lex_le s t.
Proof.
  revert n m s t. induction w as [|w IH]; intros n m s t Hn Hm.
  - simpl in *. assert (n = 0) as -> by lia. assert (m = 0) as -> by lia.
    done.
  - rewrite Nat2N.inj_succ, N.pow_succ_r' in Hn, Hm.
    cbn [pad]. rewrite <-!(assoc_L (++)). cbn [app].
    rewrite IH by (apply N.Div0.div_lt_upper_bound; lia).
    cbn [lex_le].
    pose proof (N.div_mod n 10). pose proof (N.div_mod m 10).
    pose proof (N.mod_lt n 10). pose proof (N.mod_lt m 10).
    generalize dependent (n / 10). generalize dependent (m / 10).
    generalize dependent (n mod 10). generalize dependent (m mod 10).
    intros. 
    repeat match goal with
           | |- context [?a <? ?b] => destruct (N.ltb_spec a b)
           end; try done; lia.
Qed.

Lemma isoformat_midnight (y m d : N) :
  isoformat {| year := y; month := m; day := d;
               hour := 0; minute := 0; second := 0; microsecond := 0 |}
  = pad 4 y ++ 45 :: pad 2 m ++ 45 :: pad 2 d ++ lit "T00:00:00".
Proof. reflexivity. Qed.

Lemma isoformat_max :
  isoformat datetime_max
  = pad 4 9999 ++ 45 :: pad 2 12 ++ 45 :: pad 2 31
    ++ lit "T23:59:59.999999".
Proof. by vm_compute. Qed.

Lemma isoformat_nonempty (d : datetime) : isoformat d ≠ [].
Proof.
  unfold isoformat. cbn [pad]. intros H.
  apply app_eq_nil in H as [H _]. apply app_eq_nil in H as [_ H]. done.
Qed.

(** On midnights of the calendar, the ISO texts are ordered as the
    dates. *)
Lemma lex_le_isoformat_midnight (y m d y' m' d' : N) :
  y ≤ 9999 → m ≤ 12 → d ≤ 31 → y' ≤ 9999 → m' ≤ 12 → d' ≤ 31 →
  lex_le
    (isoformat {| year := y; month := m; day := d;
                  hour := 0; minute := 0; second := 0; microsecond := 0 |})
    (isoformat {| year := y'; month := m'; day := d';
                  hour := 0; minute := 0; second := 0; microsecond := 0 |})
  = dt_le {| year := y; month := m; day := d;
             hour := 0; minute := 0; second := 0; microsecond := 0 |}
          {| year := y'; month := m'; day := d';
             hour := 0; minute := 0; second := 0; microsecond := 0 |}.
Proof.
  intros. rewrite !isoformat_midnight.
  rewrite lex_le_pad by (simpl; lia). unfold dt_le, dt_fields.
  cbn [lex_le year month day hour minute second microsecond].
  destruct (y <? y'); [done|]. destruct (y' <? y); [done|].
  change (45 <? 45) with false. cbv iota.
  rewrite lex_le_pad by (simpl; lia).
  destruct (m <? m'); [done|]. destruct (m' <? m); [done|].
  cbn [lex_le]. change (45 <? 45) with false. cbv iota.
  rewrite lex_le_pad by (simpl; lia).
  destruct (d <? d'); [done|]. destruct (d' <? d); [done|].
  by vm_compute.
Qed.

Lemma lex_le_isoformat_max (y m d : N) :
  y ≤ 9999 → m ≤ 12 → d ≤ 31 →
  lex_le (isoformat datetime_max)
    (isoformat {| year := y; month := m; day := d;
                  hour := 0; minute := 0; second := 0; microsecond := 0 |})
  = false.
Proof.
  intros. rewrite isoformat_max, isoformat_midnight.
  rewrite lex_le_pad by (simpl; lia).
  destruct (N.ltb_spec 9999 y); [lia|]. destruct (y <? 9999); [done|].
  cbn [lex_le]. change (45 <? 45) with false. cbv iota.
  rewrite lex_le_pad by (simpl; lia).
  destruct (N.ltb_spec 12 m); [lia|]. destruct (m <? 12); [done|].
  cbn [lex_le]. change (45 <? 45) with false. cbv iota.
  rewrite lex_le_pad by (simpl; lia).
  destruct (N.ltb_spec 31 d); [lia|]. destruct (d <? 31); [done|].
  by vm_compute.
Qed.

(** The sort key of a period, by cases. *)
Lemma period_start_key_cases (p k : str) :
  period_start_key p = Some k →
  (p = [] ∧ k = [])
  ∨ (p ≠ [] ∧ parsable p = false ∧ k = isoformat datetime_max)
  ∨ (parsable p = true
     ∧ ∃ y m d, y ≤ 9999 ∧ m ≤ 12 ∧ d ≤ 31
         ∧ _period_start p
           = Some {| year := y; month := m; day := d; hour := 0;
                     minute := 0; second := 0; microsecond := 0 |}
         ∧ k = isoformat {| year := y; month := m; day := d; hour := 0;
                            minute := 0; second := 0; microsecond := 0 |}).
Proof.
  destruct p as [|c p]; [intros [= <-]; by left|]. intros H. right.
  unfold period_start_key in H. destruct (parsable (c :: p)) eqn:Hp.
  - right. split; [done|].
    destruct (_period_start (c :: p)) as [dt|] eqn:Hs; simpl in H; [|done].
    injection H as <-. pose proof Hs as Hs'. unfold _period_start in Hs'.
    unfold parsable in Hp. destruct (search RE_PERIOD_RANGE (c :: p)); [|done].
    apply strptime_dmy_fields in Hs' as (? & ? & ? & ? & ? & ? & ?).
    destruct dt as [y m d h mi sec u]. simpl in *. subst.
    exists y, m, d. repeat split; try done; lia.
  - left. rewrite period_start_unparsable in H by done. by injection H as <-.
Qed.

Section DataFacts.
Variable file_exists : str → bool.
Variable pdf_pages : str → list Page.

(** Every entry of [parsed_files] carries the sort key of its own
    period. *)
Lemma data_files_key (fs : list Upload) (dfs : list DataFile) :
  data_files file_exists pdf_pages fs = Some dfs →
  Forall (λ f, period_start_key (df_period f) = Some (df_period_start f)) dfs.
Proof.
  revert dfs. induction fs as [|f fs IH]; intros dfs; simpl.
  - intros [= <-]. constructor.
  - destruct (negb (file_exists (path f))); [by apply IH|].
    destruct (mapM clean_row _) as [cleaned|]; [|done]. simpl.
    destruct (period_start_key _) as [start|] eqn:Hstart; [|done]. simpl.
    destruct (data_files file_exists pdf_pages fs) as [rest|]; [|done].
    simpl. intros [= <-]. constructor; [done|]. by apply IH.
Qed.

(** C4, amended: the documents returned by [api_report_data] are the
    parsed documents in a stable ascending order of their period-start
    key, the ISO text of the period-start date. Documents with parsable
    periods stand in ascending order of period-start date; a document whose
    period is not empty and unparsable has the key of [datetime.max] and
    stands below every document with a parsable period; a document with an
    empty period has the empty key and is never below a document with a
    period. *)
Theorem data_files_sorted (fs : list Upload) (rd : ReportData) :
  api_report_data file_exists pdf_pages fs = Some rd →
  ∃ parsed_files,
    data_files file_exists pdf_pages fs = Some parsed_files
    ∧ files rd ≡ₚ parsed_files
    ∧ (∀ k, filter (λ f, df_period_start f = k) (files rd)
            = filter (λ f, df_period_start f = k) parsed_files)
    ∧ ∀ i j a b, (i < j)%nat →
        files rd !! i = Some a → files rd !! j = Some b →
        lex_le (df_period_start a) (df_period_start b) = true
        ∧ (df_period b = [] → df_period a = [])
        ∧ (parsable (df_period b) = true →
           df_period a = [] ∨ parsable (df_period a) = true)
        ∧ (parsable (df_period a) = true → parsable (df_period b) = true →
           ∃ da db, _period_start (df_period a) = Some da
                    ∧ _period_start (df_period b) = Some db
                    ∧ dt_le da db = true)
        ∧ (df_period a ≠ [] → parsable (df_period a) = false →
           df_period_start a = isoformat datetime_max).
Proof.
  unfold api_report_data.
  destruct (data_files file_exists pdf_pages fs) as [dfs|] eqn:Hdfs; [|done].
  simpl. intros [= <-]. simpl. exists dfs. split; [done|].
  split; [apply sorted_perm|].
  split; [intros k; apply sorted_stable, lex_le_refl|].
  intros i j a b Hij Ha Hb.
  pose proof (sorted_lookup_le df_period_start lex_le lex_le_total lex_le_trans
                dfs i j a b Hij Ha Hb) as Hle.
  apply data_files_key in Hdfs. rewrite Forall_forall in Hdfs.
  assert (a ∈ dfs) as Hka
    by (eapply elem_of_sorted, list_elem_of_lookup_2, Ha).
  assert (b ∈ dfs) as Hkb
    by (eapply elem_of_sorted, list_elem_of_lookup_2, Hb).
  apply Hdfs, period_start_key_cases in Hka, Hkb.
  split; [done|].
  destruct Hka as [[Hpa Hsa]|[(Hpa & Hua & Hsa)
                             |(Hua & ya & ma & da & ? & ? & ? & Hda & Hsa)]];
  destruct Hkb as [[Hpb Hsb]|[(Hpb & Hub & Hsb)
                             |(Hub & yb & mb & db & ? & ? & ? & Hdb & Hsb)]];
  rewrite Hsa, Hsb in Hle;
  try rewrite lex_le_isoformat_max in Hle by done;
  try rewrite lex_le_isoformat_midnight in Hle by done;
  try (pose proof (isoformat_nonempty datetime_max));
  try (destruct (isoformat _) eqn:?; simpl in Hle; congruence);
  try (rewrite Hpa in *); try (rewrite Hpb in *);
  repeat split; try done; try congruence; try (by left); try (by right);
  try (by vm_compute).
  - intros Hb0. rewrite Hb0 in Hub. by vm_compute in Hub.
  - intros _ _. eauto.
Qed.

End DataFacts.

Lemma sample_data_eq :
  api_report_data sample_exists sample_pages sample_files = Some sample_result.
Proof. vm_compute. reflexivity. Qed.

(** C4, as stated, fails: of the stored reports February, January and one
    without period, the analytics view returns the report without period
    first, above the two reports with parsable periods. *)
Lemma empty_period_sorts_first :
  api_report_data sample_exists sample_pages sample_files = Some sample_result
  ∧ df_period <$> files sample_result = [[]; jan; feb]
  ∧ parsable [] = false ∧ parsable jan = true ∧ parsable feb = true.
Proof. split; [apply sample_data_eq|]. by vm_compute. Qed.

(** C4, amended, at the sample store: January stands above February. *)
Lemma data_files_sorted_sample :
  ∃ da db, _period_start jan = Some da ∧ _period_start feb = Some db
           ∧ dt_le da db = true.
Proof.
  destruct (data_files_sorted sample_exists sample_pages sample_files
              sample_result sample_data_eq)
    as (dfs & _ & _ & _ & Hord).
  destruct (Hord 1%nat 2%nat
              {| df_period := jan;
                 df_period_start := lit "2023-01-01T00:00:00";
                 df_region := lit "Almaty"; df_report_date := [];
                 df_rows := [] |}
              {| df_period := feb;
                 df_period_start := lit "2023-02-01T00:00:00";
                 df_region := lit "Almaty"; df_report_date := [];
                 df_rows := [] |})
    as (_ & _ & _ & Hdates & _); [lia|by vm_compute..|].
  apply Hdates; by vm_compute.
Defined.

(** * Further properties *)

(** ** The matcher finds every match and reports the groups *)

Lemma exactly_app (p : N → bool) (pre r : str) :
  Forall (λ c, p c = true) pre → exactly p (length pre) (pre ++ r) = Some r.
Proof. induction 1 as [|c pre Hc _ IH]; simpl; [done|]. by rewrite Hc. Qed.

Lemma greedy_is_Some {R} (p : N → bool) (n : nat) (mid r : str)
    (k : str → option R) :
  Forall (λ c, p c = true) mid → (length mid ≤ n)%nat → is_Some (k r) →
  is_Some (greedy p n (mid ++ r) k).
Proof.
  intros Hmid. revert n. induction Hmid as [|c mid Hc _ IH]; intros n Hn Hk.
  - simpl. destruct n, r; simpl; try done.
    destruct (p n0); [|done]. by destruct (greedy p n r k).
  - destruct n as [|n]; [simpl in Hn; lia|]. simpl. rewrite Hc.
    destruct (IH n) as [v ->]; [simpl in Hn; lia|done..].
Qed.

Lemma run_complete {R} (r : regex) (pre rest : str) (caps : list str)
    (k : str → list str → option R) :
  matches r pre → (∀ caps', is_Some (k rest caps')) →
  is_Some (run r (pre ++ rest) caps k).
Proof.
  revert pre rest caps k. induction r as [t|p lo hi|r1 IH1 r2 IH2|r IH];
    intros pre rest caps k Hm Hk; simpl in *.
  - subst. by rewrite strip_prefix_app.
  - destruct Hm as (Hall & Hlo & Hhi).
    rewrite <-(take_drop lo pre), <-(assoc_L (++)).
    assert (length (take lo pre) = lo) as Hlen by (rewrite length_take; lia).
    rewrite <-Hlen at 1. rewrite exactly_app by by apply Forall_take.
    apply greedy_is_Some; [by apply Forall_drop| |done].
    rewrite length_drop. destruct hi; [lia|]. rewrite length_app, length_drop.
    lia.
  - destruct Hm as (a & b & -> & Ha & Hb). rewrite <-(assoc_L (++)).
    apply IH1; [done|]. intros caps'. by apply IH2.
  - apply IH; [done|]. intros caps'. apply Hk.
Qed.

(** [fullmatch] decides the language of a pattern. *)
Lemma fullmatch_iff (r : regex) (s : str) : fullmatch r s = true ↔ matches r s.
Proof.
  split; [apply fullmatch_matches|]. intros Hm. unfold fullmatch.
  pose proof (run_complete r s [] []
                (λ s' _, match s' with [] => Some () | _ => None end) Hm)
    as [u Hu]; [done|].
  rewrite (right_id_L [] (++)) in Hu. by rewrite Hu.
Qed.

Lemma search_unfold (r : regex) (s : str) :
  search r s
  = match run r s [] (λ _ caps, Some caps) with
    | Some caps => Some caps
    | None => match s with [] => None | _ :: s' => search r s' end
    end.
Proof. by destruct s. Qed.

(** [search] finds a match wherever one stands. *)
Lemma search_complete (r : regex) (a pre b : str) :
  matches r pre → is_Some (search r (a ++ pre ++ b)).
Proof.
  intros Hm. induction a as [|c a IH]; rewrite search_unfold.
  - pose proof (run_complete r pre b [] (λ _ caps, Some caps) Hm) as [u Hu];
      [done|].
    simpl. by rewrite Hu.
  - destruct (run r _ [] _); done.
Qed.

Lemma groups_matches (r : regex) (s : str) (cs : list str) :
  groups r s cs → matches r s.
Proof.
  revert s cs. induction r as [t|p lo hi|r1 IH1 r2 IH2|r IH];
    intros s cs; simpl.
  - by intros [? _].
  - by intros [? _].
  - intros (a & b & c1 & c2 & -> & ?%IH1 & ?%IH2 & _). by exists a, b.
  - intros (c & ?%IH & _). done.
Qed.

Lemma run_groups {R} (r : regex) (s : str) (caps : list str)
    (k : str → list str → option R) (v : R) :
  run r s caps k = Some v →
  ∃ pre rest cs, s = pre ++ rest ∧ groups r pre cs
                 ∧ k rest (caps ++ cs) = Some v.
Proof.
  revert s caps k. induction r as [t|p lo hi|r1 IH1 r2 IH2|r IH];
    intros s caps k; simpl.
  - destruct (strip_prefix t s) as [s'|] eqn:Hp; [|done].
    apply strip_prefix_Some in Hp as ->. intros Hk. exists t, s', [].
    by rewrite (right_id_L [] (++)).
  - destruct (exactly p lo s) as [s'|] eqn:He; [|done].
    apply exactly_Some in He as (pre & -> & Hlo & Hpre).
    intros (mid & r & -> & Hlen & Hmid & Hk)%greedy_Some.
    exists (pre ++ mid), r, []. rewrite <-(assoc_L (++)), (right_id_L [] (++)).
    split; [done|]. split; [|done]. split; [|done].
    split; [by apply Forall_app|]. rewrite length_app. split; [lia|].
    destruct hi; [lia|done].
  - intros (a & rest & c1 & -> & Ha & Hrun)%IH1.
    apply IH2 in Hrun as (b & rest' & c2 & -> & Hb & Hk).
    exists (a ++ b), rest', (c1 ++ c2). rewrite <-!(assoc_L (++)) in *.
    split; [done|]. split; [|done]. by exists a, b, c1, c2.
  - intros (a & rest & c & -> & Ha & Hk)%IH.
    rewrite length_app, Nat.add_sub, take_app_length in Hk.
    exists a, rest, (c ++ [a]). rewrite (assoc_L (++)).
    split; [done|]. split; [|done]. by exists c.
Qed.

(** A successful [search] returns the groups of a match that stands in
    the string. *)
Lemma search_groups (r : regex) (s : str) (caps : list str) :
  search r s = Some caps →
  ∃ a pre b, s = a ++ pre ++ b ∧ groups r pre caps.
Proof.
  induction s as [|c s IH]; simpl.
  - destruct (run r [] [] _) as [u|] eqn:Hrun; [|done]. intros [= ->].
    apply run_groups in Hrun as (pre & rest & cs & Heq & Hg & [= <-]).
    by exists [], pre, rest.
  - destruct (run r (c :: s) [] _) as [u|] eqn:Hrun.
    + intros [= ->].
      apply run_groups in Hrun as (pre & rest & cs & Heq & Hg & [= <-]).
      by exists [], pre, rest.
    + intros (a & pre & b & -> & Hg)%IH. by exists (c :: a), pre, b.
Qed.

(** ** The fields of a row *)

Lemma Qle_bool_total (a b : Q) : Qle_bool a b = true ∨ Qle_bool b a = true.
Proof.
  rewrite !Qle_bool_iff. destruct (Qlt_le_dec a b) as [H|H]; [|by right].
  left. by apply Qlt_le_weak.
Qed.

Lemma Qle_bool_trans (a b c : Q) :
  Qle_bool a b = true → Qle_bool b c = true → Qle_bool a c = true.
Proof. rewrite !Qle_bool_iff. apply Qle_trans. Qed.

(** An anchor stands on its own line. *)
Lemma in_line_self (w : Word) : in_line (top w) w = true.
Proof.
  unfold in_line. apply Qlt_bool_iff.
  assert (top w - top w == 0)%Q as -> by ring. done.
Qed.

(** After the loop over the main line, each column variable holds its
    initial value or the text of a word of the line that passes the test
    of the column. *)
Lemma classify_cols (l : list Word) (c : Cols) :
  let c' := fold_left classify l c in
  (bank_base c' = bank_base c
   ∨ ∃ w, w ∈ l ∧ is_bank_base w = true ∧ bank_base c' = text w)
  ∧ (iik_prefix c' = iik_prefix c
     ∨ ∃ w, w ∈ l ∧ is_iik_prefix w = true ∧ iik_prefix c' = text w)
  ∧ (col_kbk c' = col_kbk c
     ∨ ∃ w, w ∈ l ∧ is_kbk w = true ∧ col_kbk c' = text w)
  ∧ (col_amount c' = col_amount c
     ∨ ∃ w, w ∈ l ∧ is_amount w = true ∧ col_amount c' = text w).
Proof.
  revert c. induction l as [|w l IH]; intros c; simpl; [by repeat split; left|].
  destruct (IH (classify c w)) as (Hb & Hi & Hk & Ha). simpl in *.
  repeat split.
  - destruct Hb as [->|(w' & ? & ? & ->)].
    + destruct (is_bank_base w) eqn:?; [right|by left].
      exists w. by repeat split; [left|..].
    + right. exists w'. by repeat split; [right|..].
  - destruct Hi as [->|(w' & ? & ? & ->)].
    + destruct (is_iik_prefix w) eqn:?; [right|by left].
      exists w. by repeat split; [left|..].
    + right. exists w'. by repeat split; [right|..].
  - destruct Hk as [->|(w' & ? & ? & ->)].
    + destruct (is_kbk w) eqn:?; [right|by left].
      exists w. by repeat split; [left|..].
    + right. exists w'. by repeat split; [right|..].
  - destruct Ha as [->|(w' & ? & ? & ->)].
    + destruct (is_amount w) eqn:?; [right|by left].
      exists w. by repeat split; [left|..].
    + right. exists w'. by repeat split; [right|..].
Qed.

Lemma iin_is_pay_no (t : str) :
  fullmatch RE_IIN t = true → fullmatch RE_PAY_NO t = true.
Proof.
  rewrite !fullmatch_iff. intros (Hall & Hlen & _). exists t, [].
  rewrite (right_id_L [] (++)). split; [done|].
  repeat split; simpl in *; try done; lia.
Qed.

Lemma merge_bank_shape (base suffix : str) :
  base = [] ∨ fullmatch RE_BANK_BASE base = true →
  suffix = [] ∨ fullmatch RE_SUFFIX suffix = true →
  merge_bank base suffix = []
  ∨ fullmatch RE_BANK_BASE (merge_bank base suffix) = true.
Proof.
  intros [->|Hb]; [by left|]. intros [->|Hs].
  { right. by rewrite merge_bank_no_suffix. }
  right. destruct (decide (length base = 7%nat)) as [Hlen|Hlen].
  - rewrite merge_bank_7; [|done|].
    2:{ apply fullmatch_suffix in Hs. by destruct suffix. }
    apply fullmatch_iff in Hb as (Hall & _ & _).
    pose proof (fullmatch_suffix _ Hs) as Hone.
    apply fullmatch_iff in Hs as (Hup & _ & _).
    apply fullmatch_iff. split; [|rewrite length_app; simpl; lia].
    apply Forall_app. split; [done|].
    eapply Forall_impl; [exact Hup|]. intros c Hc. simpl in *.
    unfold is_upper_digit. by rewrite Hc.
  - by rewrite merge_bank_not_7.
Qed.

Lemma first_text_shape (p : Word → bool) (l : list Word) :
  first_text p l = [] ∨ ∃ w, w ∈ l ∧ p w = true ∧ first_text p l = text w.
Proof.
  unfold first_text. destruct (List.find p l) as [w|] eqn:Hf; [|by left].
  right. apply find_Some_elem in Hf as [? ?]. by exists w.
Qed.

Lemma upper_digit_concat (parts : list str) :
  Forall (λ t, fullmatch RE_IIK_CONT t = true) parts →
  Forall (λ c, is_upper_digit c = true) (concat parts).
Proof.
  induction 1 as [|t parts Ht _ IH]; simpl; [constructor|].
  apply Forall_app. split; [|done].
  by apply fullmatch_iff in Ht as (? & _).
Qed.

(** The shape of every field of a parsed row: the identifier is a
    12-digit string; the payment number is a run of digits with an optional
    star, hence never empty; the bank code, the budget code and the amount
    are empty or of the shape of their column; the account number is made
    of uppercase letters and digits. *)
Theorem row_field_shapes (pages : list Page) :
  Forall (λ r,
      fullmatch RE_IIN (iin_bin r) = true
      ∧ fullmatch RE_PAY_NO (pay_no r) = true ∧ pay_no r ≠ []
      ∧ (bank_code r = [] ∨ fullmatch RE_BANK_BASE (bank_code r) = true)
      ∧ Forall (λ c, is_upper_digit c = true) (iik r)
      ∧ (kbk r = [] ∨ fullmatch RE_KBK (kbk r) = true)
      ∧ (amount_in r = [] ∨ fullmatch RE_AMOUNT (amount_in r) = true))
    (rows (parse_report_pdf pages)).
Proof.
  apply Forall_forall. intros r (page & _ & Hr)%elem_of_document_rows.
  apply elem_of_parse_rows in Hr as (iw & nt & Hiw & Hiin & ->). simpl.
  set (words := extract_words page).
  destruct (classify_cols (main_line words (top iw)) no_cols)
    as (Hb & Hi & Hk & Ha). simpl in *.
  assert (fullmatch RE_PAY_NO
            (first_text (λ w, fullmatch RE_PAY_NO (text w))
               (main_line words (top iw))) = true) as Hpay.
  { unfold first_text.
    destruct (List.find _ (main_line words (top iw))) as [w|] eqn:Hf.
    - by apply find_Some_elem in Hf as [_ ?].
    - exfalso. eapply (find_None_elem _ _ iw) in Hf.
      + apply iin_is_pay_no in Hiin. simpl in Hf. congruence.
      + apply elem_of_main_line. split; [done|apply in_line_self]. }
  split; [done|]. split; [done|]. split.
  { intros Hnil. rewrite Hnil in Hpay. by vm_compute in Hpay. }
  split; [|split; [|split]].
  - apply merge_bank_shape.
    + destruct Hb as [->|(w & _ & Hw & ->)]; [by left|right].
      unfold is_bank_base in Hw. by apply andb_true_iff in Hw as [_ ?].
    + destruct (first_text_shape is_bank_suffix (between words (top iw) nt))
        as [->|(w & _ & Hw & ->)]; [by left|right].
      unfold is_bank_suffix in Hw. by apply andb_true_iff in Hw as [_ ?].
  - rewrite merge_iik_cut. apply Forall_take, Forall_app. split.
    + destruct Hi as [->|(w & _ & Hw & ->)]; [constructor|].
      unfold is_iik_prefix in Hw. apply andb_true_iff in Hw as [_ Hw].
      apply fullmatch_iff in Hw as (a & b & -> & -> & Hall & _).
      apply Forall_app. split; [by repeat constructor|done].
    + apply upper_digit_concat, Forall_fmap, Forall_forall.
      intros w [_ Hw]%elem_of_List_filter. simpl.
      unfold is_iik_cont in Hw. by apply andb_true_iff in Hw as [_ ?].
  - destruct Hk as [->|(w & _ & Hw & ->)]; [by left|right].
    unfold is_kbk in Hw. by apply andb_true_iff in Hw as [_ ?].
  - destruct Ha as [->|(w & _ & Hw & ->)]; [by left|right].
    unfold is_amount in Hw. by apply andb_true_iff in Hw as [_ ?].
Qed.

(** The payment number of a row is read on the anchor's line from a word
    that stands at the anchor's [x0] or left of it: the anchor itself is
    the last candidate. *)
Theorem payment_number_left_of_anchor (page : Page) :
  Forall (λ r, ∃ iw w,
      iw ∈ extract_words page ∧ w ∈ extract_words page
      ∧ iin_bin r = text iw ∧ pay_no r = text w
      ∧ in_line (top iw) w = true ∧ (x0 w <= x0 iw)%Q)
    (_parse_rows_by_columns page).
Proof.
  apply Forall_forall. intros r (iw & nt & Hiw & Hiin & ->)%elem_of_parse_rows.
  simpl. unfold first_text, main_line.
  destruct (List.find _ _) as [w|] eqn:Hf.
  - exists iw, w. pose proof Hf as [[? ?]%elem_of_main_line _]%find_Some_elem.
    repeat split; try done. apply Qle_bool_iff.
    eapply (find_sorted_least x0 Qle_bool Qle_bool_total Qle_bool_trans);
      [exact Hf| |].
    + apply elem_of_List_filter. split; [done|apply in_line_self].
    + by apply iin_is_pay_no.
  - exfalso. eapply (find_None_elem _ _ iw) in Hf.
    + apply iin_is_pay_no in Hiin. simpl in Hf. congruence.
    + apply elem_of_main_line. split; [done|apply in_line_self].
Qed.

(** ** Deduplication within a page *)

Lemma row_key_inj (r1 r2 : Row) : row_key r1 = row_key r2 → r1 = r2.
Proof. destruct r1, r2. unfold row_key. simpl. by intros [= -> -> -> -> -> ->]. Qed.

Lemma seen_nothing (k : RowKey) :
  k ∈ (∅ : gset RowKey) ↔ k ∈ row_key <$> ([] : list Row).
Proof. split; [by intros ?%not_elem_of_empty|by intros ?%elem_of_nil]. Qed.

Lemma dedup_rows_app (rs : list Row) (seen : gset RowKey) (uniq : list Row) :
  ∃ l, dedup_rows rs seen uniq = uniq ++ l ∧ l `sublist_of` rs.
Proof.
  revert seen uniq. induction rs as [|r rs IH]; intros seen uniq; simpl.
  - exists []. by rewrite (right_id_L [] (++)).
  - destruct (decide (row_key r ∈ seen)).
    + destruct (IH seen uniq) as (l & -> & Hl). exists l.
      split; [done|]. by apply sublist_cons.
    + destruct (IH ({[row_key r]} ∪ seen) (uniq ++ [r])) as (l & -> & Hl).
      exists (r :: l). rewrite <-(assoc_L (++)).
      split; [done|]. by apply sublist_skip.
Qed.

(** One more row at the end is appended unless its key was seen. *)
Lemma dedup_rows_snoc (rs : list Row) (r : Row) (seen : gset RowKey)
    (uniq : list Row) :
  (∀ k, k ∈ seen ↔ k ∈ row_key <$> uniq) →
  dedup_rows (rs ++ [r]) seen uniq
  = if decide (row_key r ∈ row_key <$> dedup_rows rs seen uniq)
    then dedup_rows rs seen uniq
    else dedup_rows rs seen uniq ++ [r].
Proof.
  revert seen uniq. induction rs as [|x rs IH]; intros seen uniq Hseen; simpl.
  - destruct (decide (row_key r ∈ seen)) as [Hin|Hout];
      destruct (decide (row_key r ∈ row_key <$> uniq)) as [Hin'|Hout'];
      try done; exfalso.
    + by apply Hout', Hseen.
    + by apply Hout, Hseen.
  - destruct (decide (row_key x ∈ seen)); [by apply IH|].
    apply IH. intros k.
    rewrite fmap_app, elem_of_app, elem_of_union, Hseen. simpl.
    rewrite list_elem_of_singleton, elem_of_singleton. tauto.
Qed.

Lemma elem_of_dedup_rows_iff (rs : list Row) (r : Row) :
  r ∈ dedup_rows rs ∅ [] ↔ r ∈ rs.
Proof.
  induction rs as [|x rs IH] using rev_ind.
  - done.
  - rewrite dedup_rows_snoc by apply seen_nothing.
    rewrite elem_of_app, list_elem_of_singleton.
    destruct (decide _) as [Hin|Hout].
    + rewrite IH. split; [by left|]. intros [?| ->]; [done|].
      apply list_elem_of_fmap in Hin as (y & ->%row_key_inj & Hy).
      by apply IH.
    + by rewrite elem_of_app, list_elem_of_singleton, IH.
Qed.

(** The deduplication of a page keeps each row where it first occurs:
    going through the rows in the order of their anchors, a row is
    appended exactly when no equal row came before it; so the result is a
    subsequence of the rows built for the anchors, without repetition and
    with the same members. *)
Theorem page_dedup_keeps_first (rs : list Row) (r : Row) :
  dedup_rows (rs ++ [r]) ∅ []
  = (if decide (r ∈ rs) then dedup_rows rs ∅ []
     else dedup_rows rs ∅ [] ++ [r])
  ∧ dedup_rows rs ∅ [] `sublist_of` rs
  ∧ NoDup (dedup_rows rs ∅ [])
  ∧ ∀ x, x ∈ dedup_rows rs ∅ [] ↔ x ∈ rs.
Proof.
  split; [|split; [|split]].
  - rewrite dedup_rows_snoc by apply seen_nothing.
    destruct (decide (row_key r ∈ _)) as [Hin|Hout];
      destruct (decide (r ∈ rs)) as [Hin'|Hout']; try done; exfalso.
    + apply list_elem_of_fmap in Hin as (y & ->%row_key_inj & Hy).
      by apply Hout', elem_of_dedup_rows_iff.
    + apply Hout, list_elem_of_fmap_2. by apply elem_of_dedup_rows_iff.
  - by destruct (dedup_rows_app rs ∅ []) as (l & -> & ?).
  - eapply NoDup_fmap_1, dedup_rows_NoDup; [apply seen_nothing|constructor].
  - intros x. apply elem_of_dedup_rows_iff.
Qed.

Lemma dedup_rows_NoDup_id (rs : list Row) :
  NoDup (row_key <$> rs) → dedup_rows rs ∅ [] = rs.
Proof.
  induction rs as [|x rs IH] using rev_ind; [done|].
  rewrite fmap_app. intros (Hnd & Hx & _)%NoDup_app.
  rewrite dedup_rows_snoc by apply seen_nothing.
  rewrite IH by done. rewrite decide_False; [done|].
  intros Hin. apply (Hx _ Hin). simpl. by left.
Qed.

Lemma build_rows_iin (words anchors : list Word) :
  iin_bin <$> build_rows words anchors = text <$> anchors.
Proof.
  induction anchors as [|iw rest IH]; [done|]. cbn [build_rows].
  by rewrite !fmap_cons, IH.
Qed.

(** A page gives at most one row per 12-digit word, and exactly one, in
    the order of their [top], when these words carry different
    identifiers. *)
Theorem one_row_per_identifier (page : Page) :
  let anchors := iin_words_of (extract_words page) in
  (length (_parse_rows_by_columns page) ≤ length anchors)%nat
  ∧ (NoDup (text <$> anchors) →
     iin_bin <$> _parse_rows_by_columns page = text <$> anchors).
Proof.
  intros anchors. unfold _parse_rows_by_columns. fold anchors. split.
  - destruct (dedup_rows_app (build_rows (extract_words page) anchors) ∅ [])
      as (l & -> & Hl). simpl.
    apply sublist_length in Hl.
    assert (length (build_rows (extract_words page) anchors) = length anchors)
      as <-; [|done].
    by rewrite <-(length_fmap iin_bin), build_rows_iin, length_fmap.
  - intros Hnd. rewrite dedup_rows_NoDup_id; [apply build_rows_iin|].
    rewrite <-(build_rows_iin (extract_words page)) in Hnd.
    apply (NoDup_fmap_1 (λ k : RowKey, k.1.1.1.1.2)).
    rewrite <-list_fmap_compose. exact Hnd.
Qed.

(** At the sample page with two anchors of different identifiers. *)
Lemma one_row_per_identifier_sample :
  iin_bin <$> _parse_rows_by_columns two_row_page
  = [lit "123456789012"; lit "210987654321"].
Proof.
  pose proof (one_row_per_identifier two_row_page) as [_ H].
  rewrite H.
  - by vm_compute.
  - vm_compute. apply NoDup_cons. split; [|apply NoDup_singleton].
    by intros ?%list_elem_of_singleton.
Defined.

(** ** Cleaning and stripping text *)

Lemma str_in_true (t s : str) :
  str_in t s = true ↔ ∃ a b, s = a ++ t ++ b.
Proof.
  split; [|intros (a & b & ->); apply str_in_app].
  induction s as [|c s IH]; simpl.
  - destruct (strip_prefix t []) as [r|] eqn:Hp; [|done]. intros _.
    apply strip_prefix_Some in Hp. by exists [], r.
  - destruct (strip_prefix t (c :: s)) as [r|] eqn:Hp.
    + intros _. apply strip_prefix_Some in Hp. by exists [], r.
    + intros (a & b & ->)%IH. by exists (c :: a), b.
Qed.

(** A text inside another text holds no string the other does not
    hold. *)
Lemma str_in_inside (t s a b : str) :
  str_in t (a ++ s ++ b) = false → str_in t s = false.
Proof.
  intros Hout. apply not_true_is_false. intros (x & y & ->)%str_in_true.
  apply not_true_iff_false in Hout. apply Hout, str_in_true.
  exists (a ++ x), (y ++ b). by rewrite <-!(assoc_L (++)).
Qed.

Lemma lstrip_split (s : str) :
  ∃ a, s = a ++ lstrip s ∧ Forall (λ c, is_space c = true) a.
Proof.
  induction s as [|c s (a & Ha & Hall)]; simpl; [by exists []|].
  destruct (is_space c) eqn:Hc; [|by exists []].
  exists (c :: a). split; [simpl; congruence|by constructor].
Qed.

Lemma lstrip_head (s : str) :
  match lstrip s with c :: _ => is_space c = false | [] => True end.
Proof.
  induction s as [|c s IH]; simpl; [done|]. by destruct (is_space c) eqn:Hc.
Qed.

Lemma lstrip_id (s : str) :
  match s with c :: _ => is_space c = false | [] => True end → lstrip s = s.
Proof. destruct s as [|c s]; [done|]. simpl. by intros ->. Qed.

(** [strip] cuts whitespace off both ends and nothing else. *)
Lemma strip_split (s : str) :
  ∃ a b, s = a ++ strip s ++ b
         ∧ Forall (λ c, is_space c = true) a
         ∧ Forall (λ c, is_space c = true) b.
Proof.
  unfold strip. destruct (lstrip_split s) as (a & Ha & Hsa).
  destruct (lstrip_split (reverse (lstrip s))) as (b & Hb & Hsb).
  exists a, (reverse b). split; [|split; [done|by apply Forall_reverse]].
  rewrite Ha at 1. f_equal.
  rewrite <-(reverse_involutive (lstrip s)), Hb at 1.
  by rewrite reverse_app.
Qed.

Lemma strip_stripped (s : str) : stripped (strip s).
Proof.
  unfold strip, stripped. rewrite reverse_involutive.
  split; [|apply lstrip_head].
  pose proof (lstrip_head s) as Hhead.
  destruct (lstrip_split (reverse (lstrip s))) as (a & Ha & _).
  destruct (lstrip (reverse (lstrip s))) as [|c m] using rev_ind; [done|].
  clear IHm. rewrite reverse_snoc.
  apply (f_equal reverse) in Ha.
  rewrite reverse_involutive, reverse_app, reverse_snoc in Ha.
  by rewrite Ha in Hhead.
Qed.

Lemma strip_id (s : str) : stripped s → strip s = s.
Proof.
  intros [H1 H2]. unfold strip.
  by rewrite (lstrip_id s), (lstrip_id (reverse s)), reverse_involutive.
Qed.

Lemma strip_idemp (s : str) : strip (strip s) = strip s.
Proof. apply strip_id, strip_stripped. Qed.

Lemma Forall_strip (P : N → Prop) (s : str) : Forall P s → Forall P (strip s).
Proof.
  destruct (strip_split s) as (a & b & Hs & _). rewrite Hs at 1.
  by intros [_ [? _]%Forall_app]%Forall_app.
Qed.

Lemma is_blank_cases (c : N) : is_blank c = true ↔ c = 32 ∨ c = 9.
Proof. unfold is_blank. rewrite orb_true_iff, !N.eqb_eq. done. Qed.

Lemma replace1_nbsp (t : str) : Forall (λ c, c ≠ 160) (replace1 160 [32] t).
Proof.
  induction t as [|c t IH]; [constructor|]. unfold replace1 in *. simpl.
  destruct (N.eqb_spec c 160); simpl; constructor; done.
Qed.

(** Collapsing writes only characters it read, and spaces. *)
Lemma collapse_blanks_Forall (P : N → Prop) (s : str) :
  P 32 → Forall P s → Forall P (collapse_blanks s).
Proof.
  intros H32. induction 1 as [|c s Hc Hs IH]; simpl; [constructor|].
  destruct (is_blank c); [|by constructor].
  destruct s as [|d s]; [by repeat constructor|].
  destruct (is_blank d); [done|by constructor].
Qed.

Lemma collapse_blanks_no_tab (s : str) :
  Forall (λ c, c ≠ 9) (collapse_blanks s).
Proof.
  induction s as [|c s IH]; simpl; [constructor|].
  destruct (is_blank c) eqn:Hc.
  - destruct s as [|d s]; [by repeat constructor|].
    destruct (is_blank d); [done|by constructor].
  - constructor; [|done]. intros ->. done.
Qed.

Lemma collapse_blanks_no_double (s a b : str) :
  collapse_blanks s ≠ a ++ [32; 32] ++ b.
Proof.
  revert a. induction s as [|c s IH]; intros a; simpl.
  - by destruct a.
  - destruct (is_blank c) eqn:Hc.
    + destruct s as [|d s]; [by destruct a as [|? [|]]|].
      destruct (is_blank d) eqn:Hd; [apply IH|].
      destruct a as [|x a]; [|intros [= _ H]; by apply IH in H].
      simpl in *. rewrite Hd. intros [= ->]. done.
    + destruct a as [|x a]; [intros [= -> _]; done|].
      intros [= _ H]. by apply IH in H.
Qed.

(** Collapsing leaves a text without tab and double space as it is. *)
Lemma collapse_blanks_id (s : str) :
  Forall (λ c, c ≠ 9) s → (∀ a b, s ≠ a ++ [32; 32] ++ b) →
  collapse_blanks s = s.
Proof.
  induction 1 as [|c s Hc Hs IH]; intros Hdouble; simpl; [done|].
  assert (collapse_blanks s = s) as Hrec.
  { apply IH. intros a b ->. by apply (Hdouble (c :: a) b). }
  destruct (is_blank c) eqn:Hb; [|by rewrite Hrec].
  apply is_blank_cases in Hb as [-> | ->]; [|done].
  destruct s as [|d s]; [done|].
  destruct (is_blank d) eqn:Hd; [|by rewrite Hrec].
  apply is_blank_cases in Hd as [-> | ->].
  - by destruct (Hdouble [] s).
  - apply Forall_cons in Hs as [? _]. done.
Qed.

(** The cleaned text of a document holds no non-breaking space, no tab and
    no two spaces in a row, neither begins nor ends with whitespace, and is
    left as it is by a second cleaning. *)
Theorem clean_text_normal_form (t : str) :
  let s := _clean_text t in
  Forall (λ c, c ≠ 160 ∧ c ≠ 9) s
  ∧ str_in (lit "  ") s = false
  ∧ stripped s
  ∧ _clean_text s = s.
Proof.
  intros s. subst s. unfold _clean_text.
  set (u := collapse_blanks (replace1 160 [32] t)).
  assert (Forall (λ c, c ≠ 160 ∧ c ≠ 9) u) as Hu.
  { apply Forall_and. split; [|apply collapse_blanks_no_tab].
    apply collapse_blanks_Forall; [done|apply replace1_nbsp]. }
  assert (str_in (lit "  ") u = false) as Hd.
  { apply not_true_is_false. intros (a & b & H)%str_in_true.
    by apply collapse_blanks_no_double in H. }
  destruct (strip_split u) as (a & b & Hsplit & _).
  assert (Forall (λ c, c ≠ 160 ∧ c ≠ 9) (strip u)) as Hs
    by by apply Forall_strip.
  assert (str_in (lit "  ") (strip u) = false) as Hds.
  { rewrite Hsplit in Hd. by apply str_in_inside in Hd. }
  split; [done|]. split; [done|]. split; [apply strip_stripped|].
  apply Forall_and in Hs as [Hnb Htab].
  rewrite replace1_keep by done.
  rewrite collapse_blanks_id; [apply strip_idemp|done|].
  intros x y Hxy. apply not_true_iff_false in Hds. apply Hds, str_in_true.
  by exists x, y.
Qed.

(** ** The metadata of a document *)

Lemma groups_plain (r : regex) (s : str) (cs : list str) :
  plain r = true → groups r s cs → cs = [].
Proof.
  revert s cs. induction r as [t|p lo hi|r1 IH1 r2 IH2|r IH];
    intros s cs; simpl; try done.
  - by intros _ [_ ?].
  - by intros _ [_ ?].
  - intros [H1 H2]%andb_true_iff (a & b & c1 & c2 & _ & Ha & Hb & ->).
    by rewrite (IH1 _ _ H1 Ha), (IH2 _ _ H2 Hb).
Qed.

(** A metadata field is empty, or the stripped text of the group of a
    match that stands in the document. *)
Lemma meta_field_cases (label : str) (g : regex) (t : str) :
  plain g = true →
  meta_field (cat [Lit label; star is_space; Group g]) t = []
  ∨ ∃ x, matches g x ∧ str_in x t = true
         ∧ meta_field (cat [Lit label; star is_space; Group g]) t = strip x.
Proof.
  intros Hplain. unfold meta_field.
  destruct (search _ t) as [caps|] eqn:Hs; [|by left]. right.
  apply search_groups in Hs as (a & pre & b & -> & Hg). simpl in Hg.
  destruct Hg as (l & rest & c1 & c2 & -> & [-> ->]
                  & (ws & x & c3 & c4 & -> & [_ ->] & (c & Hx & ->) & ->) & ->).
  rewrite (groups_plain _ _ _ Hplain Hx). simpl. exists x.
  split; [by eapply groups_matches|]. split; [|done].
  apply str_in_true. exists (a ++ label ++ ws), b.
  by rewrite <-!(assoc_L (++)).
Qed.

Lemma matches_date (s : str) :
  matches (cat DATE) s →
  ∃ d1 d2 m1 m2 y1 y2 y3 y4,
    s = [d1; d2; 46; m1; m2; 46; y1; y2; y3; y4]
    ∧ Forall (λ c, is_digit c = true) [d1; d2; m1; m2; y1; y2; y3; y4].
Proof. intros ?%fullmatch_iff. by apply fullmatch_date. Qed.

Lemma is_digit_not_space (c : N) : is_digit c = true → is_space c = false.
Proof.
  intros ?%is_digit_bounds. unfold is_space, in_range.
  repeat match goal with
         | |- context [?a <=? ?b] =>
             first [rewrite (proj2 (N.leb_le a b)) by lia
                   |rewrite (proj2 (N.leb_gt a b)) by lia]
         | |- context [?a =? ?b] => rewrite (proj2 (N.eqb_neq a b)) by lia
         end.
  done.
Qed.

(** A text of the period shape is two dates around a dash; it is
    stripped, and [RE_PERIOD_RANGE] is found in it. *)
Lemma period_text_parsable (x : str) :
  matches PERIOD_TEXT x → stripped x ∧ parsable x = true.
Proof.
  intros (a1 & ? & -> & H1 & a2 & ? & -> & H2 & a3 & ? & -> & H3
          & a4 & ? & -> & H4 & a5 & ? & -> & H5
          & w1 & ? & -> & Hw1 & l & ? & -> & Hl & w2 & D2 & -> & Hw2 & HD2).
  assert (matches (cat DATE) (a1 ++ a2 ++ a3 ++ a4 ++ a5)) as HD1.
  { exists a1, (a2 ++ a3 ++ a4 ++ a5). split; [done|]. split; [done|].
    exists a2, (a3 ++ a4 ++ a5). split; [done|]. split; [done|].
    exists a3, (a4 ++ a5). split; [done|]. split; [done|]. by exists a4, a5. }
  split.
  - apply matches_date in HD1 as (d1 & ? & ? & ? & ? & ? & ? & ? & HD1 & Hd1).
    apply matches_date in HD2
      as (e1 & e2 & f1 & f2 & g1 & g2 & g3 & y4 & -> & Hd2).
    replace (a1 ++ a2 ++ a3 ++ a4 ++ a5 ++ w1 ++ l ++ w2
             ++ [e1; e2; 46; f1; f2; 46; g1; g2; g3; y4])
      with ((a1 ++ a2 ++ a3 ++ a4 ++ a5) ++ w1 ++ l ++ w2
            ++ [e1; e2; 46; f1; f2; 46; g1; g2; g3; y4])
      by (by rewrite <-!(assoc_L (++))).
    rewrite HD1. split.
    + simpl. apply Forall_cons in Hd1 as [? _]. by apply is_digit_not_space.
    + rewrite !reverse_app. simpl.
      assert (is_digit y4 = true) as Hy.
      { rewrite Forall_forall in Hd2. apply Hd2, list_elem_of_In. simpl.
        tauto. }
      by apply is_digit_not_space.
  - unfold parsable.
    destruct (search_complete RE_PERIOD_RANGE []
                (a1 ++ a2 ++ a3 ++ a4 ++ a5 ++ w1 ++ l ++ w2 ++ D2) [])
      as [caps Hc].
    + exists (a1 ++ a2 ++ a3 ++ a4 ++ a5), (w1 ++ l ++ w2 ++ D2).
      split; [by rewrite <-!(assoc_L (++))|]. split; [done|].
      exists w1, (l ++ w2 ++ D2). split; [done|]. split; [done|].
      exists l, (w2 ++ D2). split; [done|]. split; [done|]. by exists w2, D2.
    + simpl in Hc. rewrite (right_id_L [] (++)) in Hc. by rewrite Hc.
Qed.

(** A metadata field is the stripped text of a group, or empty. *)
Lemma meta_field_stripped (r : regex) (t : str) :
  strip (meta_field r t) = meta_field r t.
Proof. unfold meta_field. destruct (search r t); [apply strip_idemp|done]. Qed.

Lemma parsed_period_stripped (pages : list Page) :
  strip (period (parse_report_pdf pages)) = period (parse_report_pdf pages).
Proof. apply meta_field_stripped. Qed.

Lemma parsed_region_stripped (pages : list Page) :
  strip (region (parse_report_pdf pages)) = region (parse_report_pdf pages).
Proof. apply meta_field_stripped. Qed.

Lemma parsed_report_date_stripped (pages : list Page) :
  strip (report_date (parse_report_pdf pages))
  = report_date (parse_report_pdf pages).
Proof. apply meta_field_stripped. Qed.

Lemma parsed_period_shape (pages : list Page) :
  period (parse_report_pdf pages) = []
  ∨ (matches PERIOD_TEXT (period (parse_report_pdf pages))
     ∧ parsable (period (parse_report_pdf pages)) = true).
Proof.
  destruct (meta_field_cases LABEL_PERIOD PERIOD_TEXT (full_text_of pages))
    as [H|(x & Hx & _ & H)]; [done| |].
  - left. exact H.
  - right. unfold full_text_of in H.
    change (meta_field RE_PERIOD
              (_clean_text (join [10]
                 ((λ p, default [] (extract_text p)) <$> pages))) = strip x)
      in H.
    simpl. rewrite H. destruct (period_text_parsable x Hx) as [Hs Hp].
    by rewrite (strip_id x Hs).
Qed.

(** The metadata of a parsed document: each field is stripped, so that
    the [.strip()] of the report pages changes nothing; the region holds
    no line feed; the period is empty or of the shape
    [DD.MM.YYYY - DD.MM.YYYY], in which [RE_PERIOD_RANGE] is found. *)
Theorem document_metadata (pages : list Page) :
  let d := parse_report_pdf pages in
  strip (region d) = region d
  ∧ strip (report_date d) = report_date d
  ∧ strip (period d) = period d
  ∧ Forall (λ c, c ≠ 10) (region d)
  ∧ (period d = [] ∨ (matches PERIOD_TEXT (period d)
                      ∧ parsable (period d) = true)).
Proof.
  intros d. subst d.
  split; [apply parsed_region_stripped|].
  split; [apply parsed_report_date_stripped|].
  split; [apply parsed_period_stripped|].
  split; [|apply parsed_period_shape]. simpl.
  destruct (meta_field_cases LABEL_REGION (plus is_dot) (full_text_of pages))
    as [H|(x & (Hx & _) & _ & H)]; [done| |].
  - unfold RE_REGION, full_text_of in *. rewrite H. constructor.
  - unfold RE_REGION, full_text_of in *. rewrite H.
    apply Forall_strip. eapply Forall_impl; [exact Hx|].
    intros c Hc ->. done.
Qed.

(** ** The report pages as a whole *)

Lemma period_start_key_None (p : str) :
  period_start_key p = None ↔ _period_start p = None.
Proof.
  destruct p as [|c p]; [by vm_compute|]. unfold period_start_key.
  by destruct (_period_start (c :: p)).
Qed.

Lemma emit_rows_block (pf : ParsedFile) (rs : list Row)
    (table : list TableRow) (seen : gset ReportKey) :
  ∃ l, (emit_rows pf rs (table, seen)).1 = table ++ (data_row <$> l)
       ∧ l `sublist_of` rs.
Proof.
  revert table seen. induction rs as [|r rs IH]; intros table seen; simpl.
  - exists []. simpl. by rewrite (right_id_L [] (++)).
  - destruct (decide (report_key pf r ∈ seen)).
    + destruct (IH table seen) as (l & -> & Hl). exists l.
      split; [done|]. by apply sublist_cons.
    + destruct (IH (table ++ [data_row r]) ({[report_key pf r]} ∪ seen))
        as (l & -> & Hl).
      exists (r :: l). rewrite <-(assoc_L (++)).
      split; [done|]. by apply sublist_skip.
Qed.

Lemma emit_files_blocks (pfs : list ParsedFile) (table : list TableRow)
    (seen : gset ReportKey) :
  ∃ kept : list (list Row),
    (emit_files pfs (table, seen)).1
    = table ++ concat (zip_with block (pf_period <$> pfs) kept)
    ∧ Forall2 (λ l pf, l `sublist_of` pf_rows pf) kept pfs.
Proof.
  revert table seen. induction pfs as [|pf pfs IH]; intros table seen; simpl.
  - exists []. simpl. by rewrite (right_id_L [] (++)).
  - destruct (emit_rows_block pf (pf_rows pf)
                (table ++ [PeriodRow (pf_period pf)]) seen) as (l & Hl & Hsub).
    destruct (emit_rows pf (pf_rows pf) _) as [table' seen']. simpl in Hl.
    destruct (IH table' seen') as (kept & -> & Hkept). subst table'.
    exists (l :: kept). split; [|by constructor].
    simpl. unfold block at 2. by rewrite <-!(assoc_L (++)).
Qed.

Section EntryPoints.
Variable file_exists : str → bool.
Variable pdf_pages : str → list Page.

Lemma report_files_available (fs : list Upload) :
  report_files file_exists pdf_pages fs
  = report_files file_exists pdf_pages
      (List.filter (available file_exists) fs).
Proof.
  induction fs as [|f fs IH]; [done|]. simpl. unfold available at 1.
  destruct (file_exists (path f)) eqn:Hf; simpl; [|done].
  by rewrite Hf, IH.
Qed.

Lemma data_files_available (fs : list Upload) :
  data_files file_exists pdf_pages fs
  = data_files file_exists pdf_pages
      (List.filter (available file_exists) fs).
Proof.
  induction fs as [|f fs IH]; [done|]. simpl. unfold available at 1.
  destruct (file_exists (path f)) eqn:Hf; simpl; [|done].
  by rewrite Hf, IH.
Qed.

(** Files that are gone leave no trace: both report pages give what they
    give for the list of the files that exist. *)
Theorem missing_files_ignored (fs : list Upload) :
  page_report file_exists pdf_pages fs
  = page_report file_exists pdf_pages (List.filter (available file_exists) fs)
  ∧ api_report_data file_exists pdf_pages fs
    = api_report_data file_exists pdf_pages
        (List.filter (available file_exists) fs).
Proof.
  unfold page_report, api_report_data.
  by rewrite <-report_files_available, <-data_files_available.
Qed.

Lemma length_report_files (fs : list Upload) (pfs : list ParsedFile) :
  report_files file_exists pdf_pages fs = Some pfs →
  length pfs = length (List.filter (available file_exists) fs).
Proof.
  revert pfs. induction fs as [|f fs IH]; intros pfs; simpl.
  - by intros [= <-].
  - unfold available at 1.
    destruct (file_exists (path f)); simpl; [|by apply IH].
    destruct (_period_start _); [|done]. simpl.
    destruct (report_files file_exists pdf_pages fs); [|done]. simpl.
    intros [= <-]. simpl. by rewrite (IH l).
Qed.

Lemma length_data_files (fs : list Upload) (dfs : list DataFile) :
  data_files file_exists pdf_pages fs = Some dfs →
  length dfs = length (List.filter (available file_exists) fs).
Proof.
  revert dfs. induction fs as [|f fs IH]; intros dfs; simpl.
  - by intros [= <-].
  - unfold available at 1.
    destruct (file_exists (path f)); simpl; [|by apply IH].
    destruct (mapM clean_row _); [|done]. simpl.
    destruct (period_start_key _); [|done]. simpl.
    destruct (data_files file_exists pdf_pages fs); [|done]. simpl.
    intros [= <-]. simpl. by rewrite (IH l0).
Qed.

(** The counts of the two report pages: [files_count] and [total_files]
    are the number of stored files that exist, which is also the number of
    period headers of the report and of documents of the analytics view. *)
Theorem file_counts (fs : list Upload) :
  (∀ table n, page_report file_exists pdf_pages fs = Some (table, n) →
     n = length (List.filter (available file_exists) fs)
     ∧ length (headers table) = n)
  ∧ (∀ rd, api_report_data file_exists pdf_pages fs = Some rd →
       total_files rd = length (List.filter (available file_exists) fs)
       ∧ length (files rd) = total_files rd).
Proof.
  split.
  - intros table n. unfold page_report.
    destruct (report_files file_exists pdf_pages fs) as [pfs|] eqn:Hpfs;
      [|done].
    simpl. intros [= <- <-].
    destruct (emit_files_keys (sorted pf_period_start dt_le pfs) [] [] ∅)
      as [_ ->]; [done|].
    simpl. rewrite length_fmap, sorted_perm.
    split; [|done]. by apply length_report_files.
  - intros rd. unfold api_report_data.
    destruct (data_files file_exists pdf_pages fs) as [dfs|] eqn:Hdfs; [|done].
    simpl. intros [= <-]. simpl. rewrite sorted_perm.
    split; [|done]. by apply length_data_files.
Qed.

(** The report is made of one block per file, in the sorted order: the
    period header of the file, then data lines for a subsequence of the
    rows of that file, in their order. *)
Theorem report_blocks (fs : list Upload) (table : list TableRow) (n : nat) :
  page_report file_exists pdf_pages fs = Some (table, n) →
  ∃ (parsed_files : list ParsedFile) (kept : list (list Row)),
    report_files file_exists pdf_pages fs = Some parsed_files
    ∧ table
      = concat (zip_with block
                  (pf_period <$> sorted pf_period_start dt_le parsed_files)
                  kept)
    ∧ Forall2 (λ l pf, l `sublist_of` pf_rows pf) kept
        (sorted pf_period_start dt_le parsed_files).
Proof.
  unfold page_report.
  destruct (report_files file_exists pdf_pages fs) as [pfs|]; [|done].
  simpl. intros [= <- <-].
  destruct (emit_files_blocks (sorted pf_period_start dt_le pfs) [] ∅)
    as (kept & Hk & Hsub).
  by exists pfs, kept.
Qed.

Lemma report_files_None (fs : list Upload) :
  report_files file_exists pdf_pages fs = None ↔
  ∃ f, f ∈ fs ∧ file_exists (path f) = true
       ∧ _period_start (period (parse_report_pdf (pdf_pages (path f)))) = None.
Proof.
  induction fs as [|f fs IH]; simpl.
  - split; [done|]. by intros (f & ?%elem_of_nil & _).
  - pose proof (parsed_period_stripped (pdf_pages (path f))) as Hstrip.
    simpl in Hstrip. rewrite Hstrip.
    destruct (file_exists (path f)) eqn:Hf; simpl.
    + destruct (_period_start _) as [start|] eqn:Hstart; simpl.
      * destruct (report_files file_exists pdf_pages fs) as [rest|]; simpl.
        -- split; [done|]. intros (g & [->|Hg]%elem_of_cons & Hav & Hnone).
           ++ simpl in Hnone. congruence.
           ++ assert (Some rest = None) as H by (apply IH; eauto). done.
        -- split; [|done]. intros _.
           destruct (proj1 IH eq_refl) as (g & ? & ? & ?).
           exists g. by repeat split; [right|..].
      * split; [|done]. intros _. exists f. by repeat split; [left|..].
    + rewrite IH. split.
      * intros (g & ? & ? & ?). exists g. by repeat split; [right|..].
      * intros (g & [->|Hg]%elem_of_cons & Hav & Hnone); [congruence|].
        by exists g.
Qed.

Lemma data_files_None (fs : list Upload) :
  data_files file_exists pdf_pages fs = None
  ↔ report_files file_exists pdf_pages fs = None.
Proof.
  induction fs as [|f fs IH]; simpl; [done|].
  destruct (file_exists (path f)); simpl; [|done].
  destruct (cleaned_rows (pdf_pages (path f))
              (rows (parse_report_pdf (pdf_pages (path f)))))
    as (cleaned & Hc & _); [done|].
  simpl in Hc. rewrite Hc. simpl.
  destruct (period_start_key _) as [k|] eqn:Hk; simpl.
  - destruct (_period_start _) as [start|] eqn:Hs; simpl.
    + destruct (data_files file_exists pdf_pages fs),
        (report_files file_exists pdf_pages fs); simpl; try done;
        destruct IH as [H1 H2]; try (by discriminate (H1 eq_refl));
        by discriminate (H2 eq_refl).
    + apply period_start_key_None in Hs. congruence.
  - apply period_start_key_None in Hk. by rewrite Hk.
Qed.

(** The two report pages fail on the same stores: exactly those in which
    a file that exists has a period whose first date is no date of the
    calendar. No amount and no missing label makes them fail. *)
Theorem report_failures (fs : list Upload) :
  (page_report file_exists pdf_pages fs = None ↔
   ∃ f, f ∈ fs ∧ file_exists (path f) = true
        ∧ _period_start (period (parse_report_pdf (pdf_pages (path f))))
          = None)
  ∧ (api_report_data file_exists pdf_pages fs = None
     ↔ page_report file_exists pdf_pages fs = None).
Proof.
  assert (page_report file_exists pdf_pages fs = None
          ↔ report_files file_exists pdf_pages fs = None) as Hp.
  { unfold page_report.
    by destruct (report_files file_exists pdf_pages fs). }
  assert (api_report_data file_exists pdf_pages fs = None
          ↔ data_files file_exists pdf_pages fs = None) as Ha.
  { unfold api_report_data.
    by destruct (data_files file_exists pdf_pages fs). }
  split.
  - rewrite Hp. apply report_files_None.
  - rewrite Ha, Hp. apply data_files_None.
Qed.

End EntryPoints.

(** At the sample store with the 31st of February, both pages fail. *)
Lemma report_failures_sample :
  page_report (λ _, true) bad_date_pages bad_date_files = None
  ∧ api_report_data (λ _, true) bad_date_pages bad_date_files = None.
Proof.
  destruct (report_failures (λ _, true) bad_date_pages bad_date_files)
    as [Hp Ha].
  assert (page_report (λ _, true) bad_date_pages bad_date_files = None) as H.
  { apply Hp. exists {| path := lit "bad.pdf" |}.
    split; [by left|]. split; [done|]. by vm_compute. }
  split; [done|]. by apply Ha.
Defined.

(** At the sample store: three of the four stored files exist. *)
Lemma file_counts_sample :
  length (headers sample_table) = 3%nat
  ∧ total_files sample_result = 3%nat.
Proof.
  destruct (file_counts sample_exists sample_pages sample_files) as [Hp Ha].
  destruct (Hp sample_table 3%nat sample_report_eq) as [_ Hh].
  destruct (Ha sample_result sample_data_eq) as [Ht _].
  split; [done|]. rewrite Ht. by vm_compute.
Defined.

(** At the store of the two files with the same row. *)
Lemma report_blocks_sample :
  ∃ (parsed_files : list ParsedFile) (kept : list (list Row)),
    report_files (λ _, true) twin_pages twin_files = Some parsed_files
    ∧ twin_table
      = concat (zip_with block
                  (pf_period <$> sorted pf_period_start dt_le parsed_files)
                  kept)
    ∧ Forall2 (λ l pf, l `sublist_of` pf_rows pf) kept
        (sorted pf_period_start dt_le parsed_files).
Proof.
  exact (report_blocks (λ _, true) twin_pages twin_files twin_table 2
           twin_report_eq).
Defined.

(** ** The analytics view *)

Lemma elem_of_nonempty (s : list str) (x : str) :
  x ∈ nonempty s ↔ x ≠ [] ∧ x ∈ s.
Proof.
  unfold nonempty. rewrite elem_of_list_to_set, elem_of_List_filter.
  rewrite negb_true_iff, bool_decide_eq_false. tauto.
Qed.

Lemma clean_row_fields (r : Row) (c : CleanedRow) :
  clean_row r = Some c →
  c_iin_bin c = iin_bin r ∧ c_bank_code c = bank_code r ∧ c_iik c = iik r
  ∧ c_kbk c = kbk r ∧ c_amount_in c = amount_in r.
Proof.
  unfold clean_row. destruct (to_numeric (amount_in r)); [|done].
  simpl. by intros [= <-].
Qed.

Section DataView.
Variable file_exists : str → bool.
Variable pdf_pages : str → list Page.

Lemma data_files_rows (fs : list Upload) (dfs : list DataFile) :
  data_files file_exists pdf_pages fs = Some dfs →
  Forall (λ df, ∃ f,
      f ∈ fs ∧ file_exists (path f) = true
      ∧ df_period df = period (parse_report_pdf (pdf_pages (path f)))
      ∧ df_region df = region (parse_report_pdf (pdf_pages (path f)))
      ∧ df_report_date df
        = report_date (parse_report_pdf (pdf_pages (path f)))
      ∧ Forall2 (λ r c,
          c_iin_bin c = iin_bin r ∧ c_bank_code c = bank_code r
          ∧ c_iik c = iik r ∧ c_kbk c = kbk r
          ∧ c_amount_in c = amount_in r)
          (rows (parse_report_pdf (pdf_pages (path f)))) (df_rows df))
    dfs.
Proof.
  revert dfs. induction fs as [|f fs IH]; intros dfs; simpl.
  - intros [= <-]. constructor.
  - destruct (file_exists (path f)) eqn:Hf; simpl.
    + destruct (mapM clean_row _) as [cleaned|] eqn:Hc; [|done]. simpl.
      destruct (period_start_key _) as [k|]; [|done]. simpl.
      destruct (data_files file_exists pdf_pages fs) as [rest|]; [|done].
      simpl. intros [= <-].
      pose proof (parsed_region_stripped (pdf_pages (path f))) as Hr.
      pose proof (parsed_report_date_stripped (pdf_pages (path f))) as Hd.
      pose proof (parsed_period_stripped (pdf_pages (path f))) as Hp.
      constructor.
      * exists f. simpl in *. rewrite Hr, Hd, Hp.
        repeat split; [by left|done|].
        apply mapM_Some_1 in Hc. eapply Forall2_impl; [exact Hc|].
        intros r c. apply clean_row_fields.
      * eapply Forall_impl; [by apply IH|].
        intros df (g & ? & ?). exists g. split; [by right|done].
    + intros Hdfs. eapply Forall_impl; [by apply IH|].
      intros df (g & ? & ?). exists g. split; [by right|done].
Qed.

(** The analytics view keeps every row: each returned document is a
    stored file that exists, with the metadata of its parse and one
    cleaned row for each parsed row, in order, a row repeated on several
    pages included. *)
Theorem analytics_keeps_every_row (fs : list Upload) (rd : ReportData) :
  api_report_data file_exists pdf_pages fs = Some rd →
  Forall (λ df, ∃ f,
      f ∈ fs ∧ file_exists (path f) = true
      ∧ df_period df = period (parse_report_pdf (pdf_pages (path f)))
      ∧ df_region df = region (parse_report_pdf (pdf_pages (path f)))
      ∧ df_report_date df
        = report_date (parse_report_pdf (pdf_pages (path f)))
      ∧ Forall2 (λ r c,
          c_iin_bin c = iin_bin r ∧ c_bank_code c = bank_code r
          ∧ c_iik c = iik r ∧ c_kbk c = kbk r
          ∧ c_amount_in c = amount_in r)
          (rows (parse_report_pdf (pdf_pages (path f)))) (df_rows df))
    (files rd).
Proof.
  unfold api_report_data.
  destruct (data_files file_exists pdf_pages fs) as [dfs|] eqn:Hdfs; [|done].
  simpl. intros [= <-]. simpl. apply data_files_rows in Hdfs.
  rewrite Forall_forall in *. intros df Hdf%elem_of_sorted. by apply Hdfs.
Qed.

(** The values offered for filtering are the regions, periods and budget
    codes that occur in the returned documents, the empty string left
    out. *)
Theorem available_values (fs : list Upload) (rd : ReportData) :
  api_report_data file_exists pdf_pages fs = Some rd →
  (∀ x, x ∈ available_regions rd ↔
        x ≠ [] ∧ ∃ f, f ∈ files rd ∧ df_region f = x)
  ∧ (∀ x, x ∈ available_periods rd ↔
          x ≠ [] ∧ ∃ f, f ∈ files rd ∧ df_period f = x)
  ∧ (∀ x, x ∈ available_kbks rd ↔
          x ≠ [] ∧ ∃ f c, f ∈ files rd ∧ c ∈ df_rows f ∧ c_kbk c = x).
Proof.
  unfold api_report_data.
  destruct (data_files file_exists pdf_pages fs) as [dfs|]; [|done].
  simpl. intros [= <-]. simpl.
  split; [|split]; intros x; rewrite elem_of_nonempty.
  - rewrite list_elem_of_fmap.
    split; intros [? (f & ? & ?)]; (split; [done|]); by exists f.
  - rewrite list_elem_of_fmap.
    split; intros [? (f & ? & ?)]; (split; [done|]); by exists f.
  - split; intros [Hne H]; (split; [done|]).
    + apply list_elem_of_fmap in H as (c & -> & Hc).
      apply list_elem_of_In, in_concat in Hc as (l & Hl & Hc).
      apply list_elem_of_In, list_elem_of_fmap in Hl as (f & -> & ?).
      apply list_elem_of_In in Hc. eauto.
    + destruct H as (f & c & ? & ? & <-).
      apply list_elem_of_fmap_2, list_elem_of_In, in_concat.
      exists (df_rows f). split; apply list_elem_of_In; [|done].
      by apply list_elem_of_fmap_2.
Qed.

End DataView.

Lemma twin_data_eq :
  api_report_data (λ _, true) twin_pages twin_files = Some twin_result.
Proof. vm_compute. reflexivity. Qed.

(** At the store of the two files with the same row: each returned
    document has one cleaned row for each parsed row. *)
Lemma analytics_keeps_every_row_sample :
  Forall (λ df, ∃ f,
      f ∈ twin_files ∧ true = true
      ∧ df_period df = period (parse_report_pdf (twin_pages (path f)))
      ∧ df_region df = region (parse_report_pdf (twin_pages (path f)))
      ∧ df_report_date df
        = report_date (parse_report_pdf (twin_pages (path f)))
      ∧ Forall2 (λ r c,
          c_iin_bin c = iin_bin r ∧ c_bank_code c = bank_code r
          ∧ c_iik c = iik r ∧ c_kbk c = kbk r
          ∧ c_amount_in c = amount_in r)
          (rows (parse_report_pdf (twin_pages (path f)))) (df_rows df))
    (files twin_result).
Proof.
  exact (analytics_keeps_every_row (λ _, true) twin_pages twin_files
           twin_result twin_data_eq).
Defined.

(** At the sample store: the region Almaty is offered, the empty period of
    the report without label is not. *)
Lemma available_values_sample :
  lit "Almaty" ∈ available_regions sample_result
  ∧ [] ∉ available_periods sample_result.
Proof.
  destruct (available_values sample_exists sample_pages sample_files
              sample_result sample_data_eq) as (Hr & Hp & _).
  split.
  - apply Hr. split; [done|].
    exists {| df_period := jan; df_period_start := lit "2023-01-01T00:00:00";
              df_region := lit "Almaty"; df_report_date := [];
              df_rows := [] |}.
    split; [|done]. apply list_elem_of_In. vm_compute. tauto.
  - intros [Hne _]%Hp. done.
Defined.

(** ** The start of a period *)




(** For a parsed document the sentinel stands for the missing period and
    for nothing else: the start of its period is [datetime.max] exactly
    when the period is empty. *)
Theorem sentinel_only_without_period (pages : list Page) :
  _period_start (period (parse_report_pdf pages)) = Some datetime_max
  ↔ period (parse_report_pdf pages) = [].
Proof.
  destruct (parsed_period_shape pages) as [Hp|[_ Hp]].
  - rewrite Hp. split; [done|]. intros _. by vm_compute.
  - split.
    + intros Hmax. by pose proof (period_start_parsable _ _ Hp Hmax).
    + intros Hnil. rewrite Hnil in Hp. by vm_compute in Hp.
Qed.

Section ReportOrder.
Variable file_exists : str → bool.
Variable pdf_pages : str → list Page.

(** The order of the report is the stable ascending order of the period
    starts: the headers are the periods of an arrangement of the files
    that exist in which no file has an earlier period start than a file
    above it, and in which files with the same period start stand in the
    order of the list of uploads. *)
Theorem report_order_stable (fs : list Upload) (table : list TableRow)
    (n : nat) :
  page_report file_exists pdf_pages fs = Some (table, n) →
  ∃ parsed_files ordered,
    report_files file_exists pdf_pages fs = Some parsed_files
    ∧ headers table = pf_period <$> ordered
    ∧ ordered ≡ₚ parsed_files
    ∧ StronglySorted
        (λ a b, dt_le (pf_period_start a) (pf_period_start b) = true) ordered
    ∧ ∀ d, filter (λ pf, pf_period_start pf = d) ordered
           = filter (λ pf, pf_period_start pf = d) parsed_files.
Proof.
  unfold page_report.
  destruct (report_files file_exists pdf_pages fs) as [pfs|]; [|done].
  simpl. intros [= <- <-]. exists pfs, (sorted pf_period_start dt_le pfs).
  split; [done|]. split.
  - by destruct (emit_files_keys (sorted pf_period_start dt_le pfs) [] [] ∅)
      as [_ ->].
  - split; [apply sorted_perm|]. split.
    + apply sorted_StronglySorted; [apply dt_le_total|apply dt_le_trans].
    + intros d. apply sorted_stable. intros a. apply lex_le_refl.
Qed.

End ReportOrder.

(** At the sample store. *)
Lemma report_order_stable_sample :
  ∃ parsed_files ordered,
    report_files sample_exists sample_pages sample_files = Some parsed_files
    ∧ headers sample_table = pf_period <$> ordered
    ∧ ordered ≡ₚ parsed_files
    ∧ StronglySorted
        (λ a b, dt_le (pf_period_start a) (pf_period_start b) = true) ordered
    ∧ ∀ d, filter (λ pf, pf_period_start pf = d) ordered
           = filter (λ pf, pf_period_start pf = d) parsed_files.
Proof.
  exact (report_order_stable sample_exists sample_pages sample_files
           sample_table 3 sample_report_eq).
Defined.

(** ** The size limit of an upload *)

Lemma stream_content_cons (c : N) (chunk : list N) (rest : list (list N)) :
  stream_content ((c :: chunk) :: rest) = (c :: chunk) ++ stream_content rest.
Proof. done. Qed.

Lemma copy_chunks_from (chunks : list (list N)) (total : N) (out : list N) :
  total ≤ MAX_UPLOAD_MB * 1024 * 1024 →
  copy_chunks chunks total out
  = if total + N.of_nat (length (stream_content chunks))
       <=? MAX_UPLOAD_MB * 1024 * 1024
    then Some (out ++ stream_content chunks)
    else None.
Proof.
  revert total out. induction chunks as [|chunk rest IH]; intros total out Ht.
  - simpl stream_content. simpl length. rewrite N.add_0_r, (right_id_L [] (++)).
    simpl copy_chunks. by destruct (N.leb_spec total (MAX_UPLOAD_MB * 1024 * 1024)); [|lia].
  - destruct chunk as [|c chunk].
    + simpl stream_content. simpl length.
      rewrite N.add_0_r, (right_id_L [] (++)). simpl copy_chunks.
      by destruct (N.leb_spec total (MAX_UPLOAD_MB * 1024 * 1024)); [|lia].
    + rewrite stream_content_cons. cbn [copy_chunks].
      rewrite length_app, Nat2N.inj_add, N.add_assoc.
      destruct (N.ltb_spec (MAX_UPLOAD_MB * 1024 * 1024)
                  (total + N.of_nat (length (c :: chunk)))) as [Hbig|Hok].
      * destruct (N.leb_spec
                    (total + N.of_nat (length (c :: chunk))
                     + N.of_nat (length (stream_content rest)))
                    (MAX_UPLOAD_MB * 1024 * 1024)); [lia|done].
      * rewrite IH by done. by rewrite <-(assoc_L (++)).
Qed.

(** The copy loop of an upload accepts a stream exactly when it holds at
    most 50 MiB, and then stores all of it, unchanged; a longer stream is
    refused with 413 whatever the sizes of the chunks. *)
Theorem upload_size_limit (chunks : list (list N)) :
  copy_chunks chunks 0 []
  = if N.of_nat (length (stream_content chunks)) <=? 52428800
    then Some (stream_content chunks)
    else None.
Proof. rewrite copy_chunks_from; [done|]. by vm_compute. Qed.
